(** * conda.models.index_record: a shallow embedding

    The package-record model of [conda/models/index_record.py]: the
    [Priority] wrapper, the link-type and feature-set normalizers, the
    derived [channel], [subdir] and [fn] fields, the identity key
    [_pkey] with [__eq__] and [__hash__], and [combined_depends].

    Python exceptions are explicit: every operation that can raise
    returns a [result].  The collaborators that [index_record.py] only
    imports (the URL-to-channel parser, the specifier parser, the
    default configuration, the enumeration table, the builtins [int],
    [hash] and [str.lower]) are parameters of the sections that use
    them. *)

From Stdlib Require Import Bool Ascii String List ZArith Lia.
From Stdlib Require DecimalString DecimalZ DecimalPos.
Import ListNotations.
Local Open Scope string_scope.

Set Implicit Arguments.

(** ** Exceptions and results *)

Inductive exn : Set :=
| AttributeError
| TypeError
| ValueError
| AssertionError
| ValidationError.

Definition exn_eqb (a b : exn) : bool :=
  match a, b with
  | AttributeError, AttributeError
  | TypeError, TypeError
  | ValueError, ValueError
  | AssertionError, AssertionError
  | ValidationError, ValidationError => true
  | _, _ => false
  end.

Inductive result (A : Type) : Type :=
| Ok (a : A)
| Raise (e : exn).

Arguments Ok {A} a.
Arguments Raise {A} e.

Definition bind {A B : Type} (m : result A) (k : A -> result B) : result B :=
  match m with
  | Ok a => k a
  | Raise e => Raise e
  end.

Notation "x <- m ;; k" := (bind m (fun x => k))
  (at level 61, m at next level, right associativity).

(** [try: body / except e: handler]: only the named exception is caught. *)
Definition try_except {A : Type} (body : result A) (e : exn)
    (handler : result A) : result A :=
  match body with
  | Ok a => Ok a
  | Raise e' => if exn_eqb e' e then handler else Raise e'
  end.

(** ** Text *)

(** Truth value of a text: the empty text is false. *)
Definition truthy (s : string) : bool :=
  match s with
  | EmptyString => false
  | String _ _ => true
  end.

(** Truth value of a text that may be [None]. *)
Definition truthy_opt (o : option string) : bool :=
  match o with
  | Some s => truthy s
  | None => false
  end.

(** [sub in s] *)
Fixpoint contains (sub s : string) : bool :=
  prefix sub s ||
  match s with
  | EmptyString => false
  | String _ s' => contains sub s'
  end.

(** [s.replace(old, new)] for a one-character [old]. *)
Fixpoint replace (old : ascii) (new : string) (s : string) : string :=
  match s with
  | EmptyString => EmptyString
  | String c s' =>
      if Ascii.eqb c old then new ++ replace old new s'
      else String c (replace old new s')
  end.

(** A text is the sequence of its bytes (UTF-8).  An ASCII text holds
    only bytes below 128. *)
Definition ascii_char (c : ascii) : bool := (nat_of_ascii c <? 128)%nat.

Fixpoint is_ascii (s : string) : bool :=
  match s with
  | EmptyString => true
  | String c s' => ascii_char c && is_ascii s'
  end.

(** Lowercasing of the ASCII letters: [A]-[Z] become [a]-[z], every
    other byte is kept.  This is what [s.lower()] does to an ASCII
    text; the builtin itself, which knows all of Unicode, is a
    parameter where the code calls it. *)
Definition lower_ascii (c : ascii) : ascii :=
  let n := nat_of_ascii c in
  if (65 <=? n)%nat && (n <=? 90)%nat then ascii_of_nat (n + 32) else c.

Fixpoint lower (s : string) : string :=
  match s with
  | EmptyString => EmptyString
  | String c s' => String (lower_ascii c) (lower s')
  end.

(** [s.split(sep)] for a one-character [sep]: every occurrence cuts, so
    adjacent separators give empty pieces and the empty text gives one
    empty piece.  [split_acc] carries the piece being read, reversed. *)
Fixpoint rev_string (acc s : string) : string :=
  match s with
  | EmptyString => acc
  | String c s' => rev_string (String c acc) s'
  end.

Fixpoint split_acc (sep : ascii) (cur : string) (s : string) : list string :=
  match s with
  | EmptyString => [rev_string EmptyString cur]
  | String c s' =>
      if Ascii.eqb c sep
      then rev_string EmptyString cur :: split_acc sep EmptyString s'
      else split_acc sep (String c cur) s'
  end.

Definition split (sep : ascii) (s : string) : list string :=
  split_acc sep EmptyString s.

(** [sep.join(l)] *)
Definition join (sep : string) (l : list string) : string :=
  String.concat sep l.

(** ** Data model *)

(** A channel as this file sees it: the three attributes it reads. *)
Module Channel.
Record t : Set := mk {
  canonical_name : string;
  subdir : option string;
  package_filename : option string
}.
End Channel.

(** A member of an enumeration this file imports ([Platform],
    [NoarchType], [PackageType]), seen through its [name] and [value]. *)
Module Enum.
Record t : Set := mk { name : string; value : string }.
End Enum.

(** A field declared [required=False, nullable=True] without default:
    never assigned, assigned [None], or assigned a value. *)
Inductive slot (A : Type) : Type :=
| Unset
| Null
| Val (a : A).

Arguments Unset {A}.
Arguments Null {A}.
Arguments Val {A} a.

(** [Priority(priority)] *)
Record Priority : Set := mkPriority { _priority : Z }.

(** [PackageRef(BasePackageRef)].  An optional field without default
    and not nullable is an [option]: [None] when it was never assigned. *)
Record PackageRef : Set := mkPackageRef {
  pref_name : string;
  pref_version : string;
  pref_build : string;
  pref_build_number : Z;
  pref_channel : option Channel.t;
  pref_subdir : option string;
  pref_fn : option string;
  pref_md5 : option string;
  pref_url : slot string
}.

(** [IndexJsonRecord(BasePackageRef)] *)
Record IndexJsonRecord : Set := mkIndexJsonRecord {
  ijr_name : string;
  ijr_version : string;
  ijr_build : string;
  ijr_build_number : Z;
  ijr_arch : slot string;
  ijr_platform : slot Enum.t;
  ijr_depends : list string;
  ijr_constrains : list string;
  ijr_features : list string;
  ijr_track_features : list string;
  ijr_subdir : option string;
  ijr_noarch : option Enum.t;
  ijr_preferred_env : option string;
  ijr_license : option string;
  ijr_license_family : option string
}.

(** [PackageRecord(IndexJsonRecord, PackageRef)]: one instance dictionary,
    so every field name occurs once. *)
Record PackageRecord : Set := mkPackageRecord {
  prec_name : string;
  prec_version : string;
  prec_build : string;
  prec_build_number : Z;
  prec_channel : option Channel.t;
  prec_subdir : option string;
  prec_fn : option string;
  prec_md5 : option string;
  prec_url : slot string;
  prec_arch : slot string;
  prec_platform : slot Enum.t;
  prec_depends : list string;
  prec_constrains : list string;
  prec_features : list string;
  prec_track_features : list string;
  prec_noarch : option Enum.t;
  prec_preferred_env : option string;
  prec_license : option string;
  prec_license_family : option string;
  prec_date : option string;
  prec_priority : option Z;
  prec_size : option Z;
  prec_package_type : slot Enum.t
}.

(** The values that reach the comparison operators as right operand. *)
Inductive pyobj : Set :=
| PyNone
| PyInt (z : Z)
| PyStr (s : string)
| PyPriority (p : Priority)
| PyPackageRef (r : PackageRef)
| PyIndexJsonRecord (r : IndexJsonRecord)
| PyPackageRecord (r : PackageRecord).

(** ** Priority *)

Section PriorityOps.

(** The builtin [int] on a text: [None] when the text is no integer
    literal. *)
Variable int_of_text : string -> option Z.

(** [Priority.__int__] *)
Definition Priority_int (self : Priority) : Z := _priority self.

(** [int(other)]: an integer is itself, a [Priority] answers through
    [__int__], a text is parsed (ValueError when it is no literal),
    anything else is a TypeError. *)
Definition int_ (other : pyobj) : result Z :=
  match other with
  | PyInt z => Ok z
  | PyPriority p => Ok (Priority_int p)
  | PyStr s =>
      match int_of_text s with
      | Some z => Ok z
      | None => Raise ValueError
      end
  | _ => Raise TypeError
  end.

(** [Priority.__lt__] *)
Definition Priority_lt (self : Priority) (other : pyobj) : result bool :=
  o <- int_ other ;; Ok (_priority self <? o)%Z.

(** [Priority.__eq__] *)
Definition Priority_eq (self : Priority) (other : pyobj) : result bool :=
  o <- int_ other ;; Ok (_priority self =? o)%Z.

(** The operators [functools.total_ordering] adds to a class that
    defines [__lt__]: [a <= b] is [a < b or a == b], [a > b] is
    [not a < b and a != b], [a >= b] is [not a < b]; [a != b] is the
    negation of [__eq__]. *)
Definition Priority_ne (self : Priority) (other : pyobj) : result bool :=
  b <- Priority_eq self other ;; Ok (negb b).

Definition Priority_le (self : Priority) (other : pyobj) : result bool :=
  b <- Priority_lt self other ;;
  if b then Ok true else Priority_eq self other.

Definition Priority_gt (self : Priority) (other : pyobj) : result bool :=
  b <- Priority_lt self other ;;
  if negb b then Priority_ne self other else Ok false.

Definition Priority_ge (self : Priority) (other : pyobj) : result bool :=
  b <- Priority_lt self other ;; Ok (negb b).

End PriorityOps.

(** ** LinkTypeField *)

Section LinkTypeOps.

(** The [LinkType] enumeration is imported, not defined, by this
    file: its members are a parameter, with the two members the file
    names and the table of the members' canonical spellings. *)
Variable LinkType : Type.
Variables hardlink softlink : LinkType.
Variable LinkType_members : list (string * LinkType).

(** The builtin [s.lower()], on any text. *)
Variable str_lower : string -> string.

(** What is assigned to a link-type field: a text or a member. *)
Inductive link_val : Type :=
| LText (s : string)
| LMember (m : LinkType).

Fixpoint member_of_spelling (tbl : list (string * LinkType)) (s : string)
    : option LinkType :=
  match tbl with
  | [] => None
  | (n, m) :: tbl' => if String.eqb n s then Some m else member_of_spelling tbl' s
  end.

(** Modelled from the spec: [EnumField.box] of the field framework,
    which is not under src/.  Strict enum matching: a member is kept,
    a text must be the canonical spelling of a member, and anything
    else fails with the invalid-enum-value error (ValidationError). *)
Definition EnumField_box (val : link_val) : result LinkType :=
  match val with
  | LMember m => Ok m
  | LText s =>
      match member_of_spelling LinkType_members s with
      | Some m => Ok m
      | None => Raise ValidationError
      end
  end.

(** [val.replace('-', '').replace('_', '').lower()] *)
Definition link_text (val : string) : string :=
  str_lower (replace "_" "" (replace "-" "" val)).

(** [LinkTypeField.box] *)
Definition LinkTypeField_box (val : link_val) : result LinkType :=
  let val :=
    match val with
    | LText s =>
        let s := link_text s in
        if String.eqb s "hard" then LMember hardlink
        else if String.eqb s "soft" then LMember softlink
        else LText s
    | LMember m => LMember m
    end in
  EnumField_box val.

End LinkTypeOps.

Arguments LText {LinkType} s.
Arguments LMember {LinkType} m.

(** ** FeaturesField *)

(** What a features field is given, stores and dumps: a text, a
    sequence of texts, or [None]. *)
Inductive features_val : Set :=
| FNone
| FText (s : string)
| FSeq (l : list string).

(** Modelled from the spec: [ListField.box] of the field framework,
    which is not under src/.  A sequence is stored as an ordered
    sequence, preserving duplicates and order; [None] stays [None]. *)
Definition ListField_box (val : features_val) : features_val := val.

(** [FeaturesField.box] *)
Definition FeaturesField_box (val : features_val) : features_val :=
  let val :=
    match val with
    | FText s => FSeq (split "," (replace " " "," s))
    | _ => val
    end in
  ListField_box val.

(** [FeaturesField.dump]: [isiterable] holds of a sequence that is not
    a text. *)
Definition FeaturesField_dump (val : features_val) : string :=
  match val with
  | FSeq l => join " " l
  | FText s => s
  | FNone => ""
  end.

(** ** Field access *)

(** Modelled from the spec: the getter of the field framework, which is
    not under src/.  Reading a field that was never assigned raises
    AttributeError (the error the derived fields below catch); a field
    that was assigned hands its stored value back. *)
Definition Field_get {A : Type} (stored : option A) : result A :=
  match stored with
  | Some a => Ok a
  | None => Raise AttributeError
  end.

Definition NullableField_get {A : Type} (stored : slot A) : result (option A) :=
  match stored with
  | Unset => Raise AttributeError
  | Null => Ok None
  | Val a => Ok (Some a)
  end.

(** Modelled from the spec: [Field.unbox] of the field framework, the
    hook a string field and a channel field inherit unchanged: the
    value is handed back as it is. *)
Definition unbox {A : Type} (val : A) : A := val.

(** What the derived fields find in the instance they are asked for:
    the stored state of the three derived fields and of [url],
    [platform] and [arch], and the required [name], [version] and
    [build].  An attribute the instance's class does not declare is
    never assigned: reading it raises AttributeError all the same. *)
Class Instance (T : Type) : Type := {
  stored_channel : T -> option Channel.t;
  stored_subdir : T -> option string;
  stored_fn : T -> option string;
  stored_url : T -> slot string;
  stored_platform : T -> slot Enum.t;
  stored_arch : T -> slot string;
  attr_name : T -> string;
  attr_version : T -> string;
  attr_build : T -> string
}.

#[export] Instance PackageRef_Instance : Instance PackageRef := {
  stored_channel := pref_channel;
  stored_subdir := pref_subdir;
  stored_fn := pref_fn;
  stored_url := pref_url;
  stored_platform := fun _ => Unset;
  stored_arch := fun _ => Unset;
  attr_name := pref_name;
  attr_version := pref_version;
  attr_build := pref_build
}.

#[export] Instance IndexJsonRecord_Instance : Instance IndexJsonRecord := {
  stored_channel := fun _ => None;
  stored_subdir := ijr_subdir;
  stored_fn := fun _ => None;
  stored_url := fun _ => Unset;
  stored_platform := ijr_platform;
  stored_arch := ijr_arch;
  attr_name := ijr_name;
  attr_version := ijr_version;
  attr_build := ijr_build
}.

#[export] Instance PackageRecord_Instance : Instance PackageRecord := {
  stored_channel := prec_channel;
  stored_subdir := prec_subdir;
  stored_fn := prec_fn;
  stored_url := prec_url;
  stored_platform := prec_platform;
  stored_arch := prec_arch;
  attr_name := prec_name;
  attr_version := prec_version;
  attr_build := prec_build
}.

(** [instance.url], [instance.platform], [instance.arch] *)
Definition attr_url {T : Type} `{Instance T} (instance : T)
    : result (option string) :=
  NullableField_get (stored_url instance).

Definition attr_platform {T : Type} `{Instance T} (instance : T)
    : result (option Enum.t) :=
  NullableField_get (stored_platform instance).

Definition attr_arch {T : Type} `{Instance T} (instance : T)
    : result (option string) :=
  NullableField_get (stored_arch instance).

(** The identity key: a 5-tuple. *)
Definition pkey : Set := (string * option string * string * string * string)%type.

Definition option_eqb (a b : option string) : bool :=
  match a, b with
  | Some x, Some y => String.eqb x y
  | None, None => true
  | _, _ => false
  end.

(** [==] on two identity keys: component by component. *)
Definition pkey_eqb (a b : pkey) : bool :=
  let '(c1, s1, n1, v1, b1) := a in
  let '(c2, s2, n2, v2, b2) := b in
  String.eqb c1 c2 && option_eqb s1 s2 && String.eqb n1 n2
  && String.eqb v1 v2 && String.eqb b1 b2.

(** ** Derived fields and identity *)

Section Records.

(** [Channel(url)]: the URL-to-channel parser, called on a URL or on
    [None]. *)
Variable Channel_of : option string -> Channel.t.

(** [context.subdir]: the default subdirectory of the configuration. *)
Variable context_subdir : string.

(** The builtin [hash] on an identity key. *)
Variable hash : pkey -> Z.

Context {T : Type} `{Instance T}.

(** [ChannelField.__get__] *)
Definition ChannelField_get (instance : T) : result Channel.t :=
  try_except (Field_get (stored_channel instance)) AttributeError
    (try_except
       (url <- attr_url instance ;;
        Ok (unbox (Channel_of url)))
       AttributeError
       (Ok (Channel_of None))).

(** ['x86' in arch] and the two replacements of [SubdirField.__get__]. *)
Definition arch_token (arch : string) : string :=
  if contains "x86" arch
  then (if contains "64" arch then "64" else "32")
  else arch.

(** [platform, arch = instance.platform.name, instance.arch]: the name
    of [None] is an AttributeError as well. *)
Definition platform_arch (instance : T) : result (option string * option string) :=
  p <- attr_platform instance ;;
  n <- match p with
       | Some m => Ok (Some (Enum.name m))
       | None => Raise AttributeError
       end ;;
  a <- attr_arch instance ;;
  Ok (n, a).

(** [SubdirField.__get__] *)
Definition SubdirField_get (instance : T) : result (option string) :=
  try_except
    (s <- Field_get (stored_subdir instance) ;; Ok (Some s))
    AttributeError
    (url <- try_except (attr_url instance) AttributeError (Ok None) ;;
     if truthy_opt url
     then Ok (unbox (Channel.subdir (Channel_of url)))
     else
       pa <- try_except (platform_arch instance) AttributeError
               (Ok (None, None)) ;;
       let '(platform, arch) := pa in
       if truthy_opt platform && negb (truthy_opt arch)
       then Ok (unbox (Some "noarch"))
       else if truthy_opt platform
       then
         match platform, arch with
         | Some platform, Some arch =>
             Ok (unbox (Some (platform ++ "-" ++ arch_token arch)))
         | _, _ => Raise TypeError
         end
       else Ok (unbox (Some context_subdir))).

(** [FilenameField.__get__] *)
Definition FilenameField_get (instance : T) : result string :=
  try_except (Field_get (stored_fn instance)) AttributeError
    (fn <- try_except
             (url <- attr_url instance ;;
              let fn := Channel.package_filename (Channel_of url) in
              if negb (truthy_opt fn) then Raise AttributeError else Ok fn)
             AttributeError
             (Ok (Some (attr_name instance ++ "-" ++ attr_version instance
                        ++ "-" ++ attr_build instance))) ;;
     match fn with
     | Some fn => if truthy fn then Ok (unbox fn) else Raise AssertionError
     | None => Raise AssertionError
     end).

(** [PackageRef._pkey] *)
Definition _pkey (self : T) : result pkey :=
  channel <- ChannelField_get self ;;
  subdir <- SubdirField_get self ;;
  Ok (Channel.canonical_name channel, subdir,
      attr_name self, attr_version self, attr_build self).

(** [PackageRef.__hash__] *)
Definition PackageRef_hash (self : T) : result Z :=
  k <- _pkey self ;; Ok (hash k).

End Records.

Section Equality.

Variable Channel_of : option string -> Channel.t.
Variable context_subdir : string.
Variable hash : pkey -> Z.

(** [other._pkey]: the classes that inherit [PackageRef] have the
    property; any other value has no such attribute. *)
Definition getattr_pkey (other : pyobj) : result pkey :=
  match other with
  | PyPackageRef r => _pkey Channel_of context_subdir r
  | PyPackageRecord r => _pkey Channel_of context_subdir r
  | _ => Raise AttributeError
  end.

(** [PackageRef.__eq__]: the left key is read first. *)
Definition PackageRef_eq {T : Type} `{Instance T} (self : T) (other : pyobj)
    : result bool :=
  a <- _pkey Channel_of context_subdir self ;;
  b <- getattr_pkey other ;;
  Ok (pkey_eqb a b).

End Equality.

(** ** combined_depends *)

Section CombinedDepends.

(** [MatchSpec(spec, optional=...)] and the [name] of a specifier: the
    specifier parser is imported, not defined, by this file. *)
Variable MatchSpec_t : Type.
Variable MatchSpec : string -> bool -> MatchSpec_t.
Variable MatchSpec_name : MatchSpec_t -> string.

(** A dictionary keeps its keys in insertion order; assigning to a key
    it has replaces the value where the key stands. *)
Definition dict : Type := list (string * MatchSpec_t).

Fixpoint setitem (d : dict) (k : string) (v : MatchSpec_t) : dict :=
  match d with
  | [] => [(k, v)]
  | (k', v') :: d' =>
      if String.eqb k' k then (k', v) :: d' else (k', v') :: setitem d' k v
  end.

(** [d[ms.name] = ms], the step of the comprehension. *)
Definition by_name (d : dict) (ms : MatchSpec_t) : dict :=
  setitem d (MatchSpec_name ms) ms.

(** [{ms.name: ms for ms in specs}] *)
Definition dict_by_name (specs : list MatchSpec_t) : dict :=
  fold_left by_name specs [].

(** [d.update(other)] *)
Definition update (d other : dict) : dict :=
  fold_left (fun d kv => setitem d (fst kv) (snd kv)) other d.

(** [itervalues(d)] *)
Definition itervalues (d : dict) : list MatchSpec_t := map snd d.

(** [IndexJsonRecord.combined_depends], on the two lists it reads. *)
Definition combined_depends (depends constrains : list string)
    : list MatchSpec_t :=
  let result := dict_by_name (map (fun spec => MatchSpec spec false) depends) in
  let result := update result
      (dict_by_name (map (fun spec => MatchSpec spec true) constrains)) in
  itervalues result.

Definition IndexJsonRecord_combined_depends (self : IndexJsonRecord) :=
  combined_depends (ijr_depends self) (ijr_constrains self).

Definition PackageRecord_combined_depends (self : PackageRecord) :=
  combined_depends (prec_depends self) (prec_constrains self).

End CombinedDepends.

(** ** The fallback chains and the merge, as the specification words them *)

Section Chains.

Variable Channel_of : option string -> Channel.t.
Variable context_subdir : string.

Context {T : Type} `{Instance T}.

(** A URL is present: a value is stored and it is not the empty text. *)
Definition url_present (instance : T) : option string :=
  match stored_url instance with
  | Val u => if truthy u then Some u else None
  | _ => None
  end.

(** The platform is set: a member is stored; its name is what is used. *)
Definition platform_set (instance : T) : option string :=
  match stored_platform instance with
  | Val m => if truthy (Enum.name m) then Some (Enum.name m) else None
  | _ => None
  end.

(** The architecture is set: a non-empty text is stored.  It is absent
    otherwise: never assigned, [None], or empty. *)
Definition arch_set (instance : T) : option string :=
  match stored_arch instance with
  | Val a => if truthy a then Some a else None
  | _ => None
  end.

(** The subdirectory chain of the specification. *)
Definition subdir_chain (instance : T) : option string :=
  match stored_subdir instance with
  | Some s => Some s
  | None =>
      match url_present instance with
      | Some u => Channel.subdir (Channel_of (Some u))
      | None =>
          match platform_set instance, arch_set instance with
          | Some p, None => Some "noarch"
          | Some p, Some a => Some (p ++ "-" ++ arch_token a)
          | None, _ => Some context_subdir
          end
      end
  end.

(** The subdirectory chain with the third and last steps told apart by
    whether the architecture was ever assigned: a platform with an
    architecture stored as [None] or empty is "noarch"; a platform whose
    architecture was never assigned falls to the default. *)
Definition subdir_chain_stored_arch (instance : T) : option string :=
  match stored_subdir instance with
  | Some s => Some s
  | None =>
      match url_present instance with
      | Some u => Channel.subdir (Channel_of (Some u))
      | None =>
          match platform_set instance, stored_arch instance with
          | Some p, Unset => Some context_subdir
          | Some p, _ =>
              match arch_set instance with
              | None => Some "noarch"
              | Some a => Some (p ++ "-" ++ arch_token a)
              end
          | None, _ => Some context_subdir
          end
      end
  end.

(** "name-version-build" *)
Definition synthesized_fn (instance : T) : string :=
  attr_name instance ++ "-" ++ attr_version instance ++ "-" ++ attr_build instance.

(** The filename chain of the specification. *)
Definition filename_chain (instance : T) : string :=
  match stored_fn instance with
  | Some s => s
  | None =>
      match url_present instance with
      | Some u =>
          match Channel.package_filename (Channel_of (Some u)) with
          | Some f => if truthy f then f else synthesized_fn instance
          | None => synthesized_fn instance
          end
      | None => synthesized_fn instance
      end
  end.

End Chains.

Section MergeSpec.

Variable MatchSpec_t : Type.
Variable MatchSpec : string -> bool -> MatchSpec_t.
Variable MatchSpec_name : MatchSpec_t -> string.

Definition has_name (d : dict MatchSpec_t) (k : string) : bool :=
  existsb (fun kv => String.eqb (fst kv) k) d.

(** The entry of that name is replaced where it stands. *)
Definition replace_in_place (d : dict MatchSpec_t) (k : string) (v : MatchSpec_t)
    : dict MatchSpec_t :=
  map (fun kv => if String.eqb (fst kv) k then (fst kv, v) else kv) d.

(** Insert-or-overwrite by package name. *)
Definition insert_or_overwrite (d : dict MatchSpec_t) (ms : MatchSpec_t)
    : dict MatchSpec_t :=
  let k := MatchSpec_name ms in
  if has_name d k then replace_in_place d k ms else (d ++ [(k, ms)])%list.

(** Every entry stands under the name of its specifier. *)
Definition well_keyed (d : dict MatchSpec_t) : Prop :=
  Forall (fun kv => fst kv = MatchSpec_name (snd kv)) d.

(** The merge of the specification: one ordered mapping, every depends
    entry as a required specifier, then every constrains entry as an
    optional one. *)
Definition merge_spec (depends constrains : list string) : list MatchSpec_t :=
  let d := fold_left insert_or_overwrite
             (map (fun spec => MatchSpec spec false) depends) [] in
  let d := fold_left insert_or_overwrite
             (map (fun spec => MatchSpec spec true) constrains) d in
  map snd d.

End MergeSpec.

(** ** Sample collaborators and records *)

(** A channel parser that knows one URL. *)
Definition sample_Channel_of (url : option string) : Channel.t :=
  match url with
  | Some u =>
      if String.eqb u "https://repo/linux-64/foo-1.0-0.tar.bz2"
      then Channel.mk "https://repo" (Some "linux-64") (Some "foo-1.0-0.tar.bz2")
      else Channel.mk u None None
  | None => Channel.mk "<unknown>" None None
  end.

(** A hash of an identity key: the lengths of its texts, summed. *)
Definition sample_hash (k : pkey) : Z :=
  let '(c, s, n, v, b) := k in
  Z.of_nat (String.length c + String.length n + String.length v + String.length b).

(** A specifier parser: the name is the text before the first blank. *)
Definition sample_MatchSpec (spec : string) (optional : bool) : string * bool :=
  (spec, optional).

Definition sample_MatchSpec_name (ms : string * bool) : string :=
  hd "" (split " " (fst ms)).

(** [PackageRecord(name='foo', version='1.0', build='0', build_number=0)] *)
Definition sample_prec : PackageRecord := {|
  prec_name := "foo"; prec_version := "1.0"; prec_build := "0";
  prec_build_number := 0;
  prec_channel := None; prec_subdir := None; prec_fn := None;
  prec_md5 := None; prec_url := Unset;
  prec_arch := Unset; prec_platform := Unset;
  prec_depends := []; prec_constrains := [];
  prec_features := []; prec_track_features := [];
  prec_noarch := None; prec_preferred_env := None; prec_license := None;
  prec_license_family := None;
  prec_date := None; prec_priority := None; prec_size := None;
  prec_package_type := Unset
|}.


(** Assignments to a record: [r.url = url], and so on. *)
Definition set_url (r : PackageRecord) (url : slot string) : PackageRecord :=
  {|
    prec_name := prec_name r; prec_version := prec_version r;
    prec_build := prec_build r; prec_build_number := prec_build_number r;
    prec_channel := prec_channel r; prec_subdir := prec_subdir r;
    prec_fn := prec_fn r; prec_md5 := prec_md5 r; prec_url := url;
    prec_arch := prec_arch r; prec_platform := prec_platform r;
    prec_depends := prec_depends r; prec_constrains := prec_constrains r;
    prec_features := prec_features r;
    prec_track_features := prec_track_features r;
    prec_noarch := prec_noarch r; prec_preferred_env := prec_preferred_env r;
    prec_license := prec_license r;
    prec_license_family := prec_license_family r; prec_date := prec_date r;
    prec_priority := prec_priority r; prec_size := prec_size r;
    prec_package_type := prec_package_type r
  |}.

Definition set_platform_arch (r : PackageRecord) (platform : slot Enum.t)
    (arch : slot string) : PackageRecord :=
  {|
    prec_name := prec_name r; prec_version := prec_version r;
    prec_build := prec_build r; prec_build_number := prec_build_number r;
    prec_channel := prec_channel r; prec_subdir := prec_subdir r;
    prec_fn := prec_fn r; prec_md5 := prec_md5 r; prec_url := prec_url r;
    prec_arch := arch; prec_platform := platform;
    prec_depends := prec_depends r; prec_constrains := prec_constrains r;
    prec_features := prec_features r;
    prec_track_features := prec_track_features r;
    prec_noarch := prec_noarch r; prec_preferred_env := prec_preferred_env r;
    prec_license := prec_license r;
    prec_license_family := prec_license_family r; prec_date := prec_date r;
    prec_priority := prec_priority r; prec_size := prec_size r;
    prec_package_type := prec_package_type r
  |}.

Definition set_fn (r : PackageRecord) (fn : option string) : PackageRecord :=
  {|
    prec_name := prec_name r; prec_version := prec_version r;
    prec_build := prec_build r; prec_build_number := prec_build_number r;
    prec_channel := prec_channel r; prec_subdir := prec_subdir r;
    prec_fn := fn; prec_md5 := prec_md5 r; prec_url := prec_url r;
    prec_arch := prec_arch r; prec_platform := prec_platform r;
    prec_depends := prec_depends r; prec_constrains := prec_constrains r;
    prec_features := prec_features r;
    prec_track_features := prec_track_features r;
    prec_noarch := prec_noarch r; prec_preferred_env := prec_preferred_env r;
    prec_license := prec_license r;
    prec_license_family := prec_license_family r; prec_date := prec_date r;
    prec_priority := prec_priority r; prec_size := prec_size r;
    prec_package_type := prec_package_type r
  |}.

Definition set_channel_subdir (r : PackageRecord) (channel : option Channel.t)
    (subdir : option string) : PackageRecord :=
  {|
    prec_name := prec_name r; prec_version := prec_version r;
    prec_build := prec_build r; prec_build_number := prec_build_number r;
    prec_channel := channel; prec_subdir := subdir; prec_fn := prec_fn r;
    prec_md5 := prec_md5 r; prec_url := prec_url r; prec_arch := prec_arch r;
    prec_platform := prec_platform r; prec_depends := prec_depends r;
    prec_constrains := prec_constrains r; prec_features := prec_features r;
    prec_track_features := prec_track_features r;
    prec_noarch := prec_noarch r; prec_preferred_env := prec_preferred_env r;
    prec_license := prec_license r;
    prec_license_family := prec_license_family r; prec_date := prec_date r;
    prec_priority := prec_priority r; prec_size := prec_size r;
    prec_package_type := prec_package_type r
  |}.



(** The sample record with the URL the sample parser knows. *)
Definition sample_prec_url : PackageRecord :=
  set_url sample_prec (Val "https://repo/linux-64/foo-1.0-0.tar.bz2").

(** The sample record with [url=None]. *)
Definition sample_prec_null_url : PackageRecord := set_url sample_prec Null.

(** [PackageRef(name='foo', version='1.0', build='0', build_number=0)] *)
Definition sample_pref : PackageRef := {|
  pref_name := "foo"; pref_version := "1.0"; pref_build := "0";
  pref_build_number := 0;
  pref_channel := None; pref_subdir := None; pref_fn := None;
  pref_md5 := None; pref_url := Unset
|}.

(** A link-type table: the members are their integer values. *)
Definition sample_LinkType_members : list (string * Z) :=
  [("hardlink", 1%Z); ("softlink", 2%Z); ("copy", 3%Z); ("directory", 4%Z)].

(** [int] that accepts no text at all. *)
Definition sample_int_of_text (s : string) : option Z := None.

(** [Platform.linux], [Platform.win] *)
Definition Platform_linux : Enum.t := Enum.mk "linux" "linux".
Definition Platform_win : Enum.t := Enum.mk "win" "win32".

(** The sample record with [platform='win'] and no [arch] given. *)
Definition sample_prec_win : PackageRecord :=
  set_platform_arch sample_prec (Val Platform_win) Unset.

(** ** Further operations of the module *)

(** ["%d" % z]: the decimal text of an integer. *)
Definition format_d (z : Z) : string :=
  DecimalString.NilZero.string_of_int (Z.to_int z).

(** [Priority.__repr__] *)
Definition Priority_repr (self : Priority) : string :=
  "Priority(" ++ format_d (_priority self) ++ ")".

Section PriorityFieldOps.

Variable int_of_text : string -> option Z.

(** [PriorityField.unbox] *)
Definition PriorityField_unbox (val : pyobj) : result Z :=
  int_ int_of_text val.

End PriorityFieldOps.

Section RefOps.

Variable Channel_of : option string -> Channel.t.

Context {T : Type} `{Instance T}.

(** [PackageRef.schannel] *)
Definition PackageRef_schannel (self : T) : result string :=
  channel <- ChannelField_get Channel_of self ;;
  Ok (Channel.canonical_name channel).

(** [PackageRef.dist_str] *)
Definition PackageRef_dist_str (self : T) : result string :=
  channel <- ChannelField_get Channel_of self ;;
  Ok (Channel.canonical_name channel ++ "::" ++ attr_name self ++ "-"
      ++ attr_version self ++ "-" ++ attr_build self).

End RefOps.

(** ** Notions the properties are stated with *)

(** The link-type normalization of an ASCII text: hyphens and
    underscores dropped, ASCII letters lowercased. *)
Definition link_text_ascii (val : string) : string :=
  lower (replace "_" "" (replace "-" "" val)).

(** What reading [url] gives once a missing attribute counts as [None]. *)
Definition url_value (stored : slot string) : option string :=
  match stored with
  | Val u => Some u
  | _ => None
  end.

(** The character occurs in the text. *)
Fixpoint char_in (c : ascii) (s : string) : bool :=
  match s with
  | EmptyString => false
  | String c' s' => Ascii.eqb c' c || char_in c s'
  end.

(** How often the character occurs in the text. *)
Fixpoint count_char (c : ascii) (s : string) : nat :=
  match s with
  | EmptyString => 0
  | String c' s' => (if Ascii.eqb c' c then 1 else 0) + count_char c s'
  end.

(** The text put in front of the first piece. *)
Definition push_first (p : string) (l : list string) : list string :=
  match l with
  | [] => [p]
  | x :: xs => (p ++ x) :: xs
  end.

(** A feature that can be told apart in a dump: no blank, no comma. *)
Definition plain_feature (f : string) : bool :=
  negb (char_in " " f) && negb (char_in "," f).

(** The names of a list in the order they are first seen. *)
Fixpoint first_seen (names : list string) : list string :=
  match names with
  | [] => []
  | n :: names' =>
      n :: filter (fun m => negb (String.eqb m n)) (first_seen names')
  end.

Section MergeNotions.

Variable MatchSpec_t : Type.
Variable MatchSpec : string -> bool -> MatchSpec_t.
Variable MatchSpec_name : MatchSpec_t -> string.

(** Every entry as [combined_depends] parses it: depends first. *)
Definition parsed_entries (depends constrains : list string) : list MatchSpec_t :=
  (map (fun spec => MatchSpec spec false) depends
   ++ map (fun spec => MatchSpec spec true) constrains)%list.

(** The last specifier of that name. *)
Definition last_named (n : string) (specs : list MatchSpec_t) : option MatchSpec_t :=
  find (fun ms => String.eqb (MatchSpec_name ms) n) (rev specs).

End MergeNotions.

(** * Properties *)

(** ** Text *)

Lemma prefix_app (sub s : string) :
  prefix sub s = true <-> exists b, s = sub ++ b.
Proof.
  revert s; induction sub as [|c sub IH]; intros s; simpl.
  - split; [intros _; now exists s | intros _; now destruct s].
  - destruct s as [|c' s]; simpl.
    + split; [discriminate | intros [b Hb]; discriminate].
    + destruct (Ascii.ascii_dec c c') as [->|Hne].
      * rewrite IH. split; intros [b Hb]; exists b.
        -- now rewrite Hb.
        -- now injection Hb.
      * split; [discriminate | intros [b Hb]; injection Hb; congruence].
Qed.

Lemma contains_unfold (sub s : string) :
  contains sub s =
  prefix sub s || match s with
                  | EmptyString => false
                  | String _ s' => contains sub s'
                  end.
Proof. destruct s; reflexivity. Qed.

(** [contains] is the substring test: [sub] occurs somewhere in [s]. *)
Lemma contains_spec (sub s : string) :
  contains sub s = true <-> exists a b, s = a ++ sub ++ b.
Proof.
  induction s as [|c s IH]; rewrite contains_unfold.
  - rewrite orb_false_r, prefix_app. split.
    + intros [b Hb]. now exists "", b.
    + intros [a [b Hab]]. destruct a; simpl in Hab; [now exists b | discriminate].
  - rewrite orb_true_iff, prefix_app, IH. split.
    + intros [[b Hb] | [a [b Hab]]].
      * now exists "", b.
      * exists (String c a), b. simpl. now rewrite Hab.
    + intros [a [b Hab]]. destruct a as [|c' a]; simpl in Hab.
      * left. now exists b.
      * right. exists a, b. now injection Hab.
Qed.

Lemma truthy_true (s : string) : truthy s = true <-> s <> "".
Proof.
  destruct s; simpl; split; congruence.
Qed.

Lemma truthy_false (s : string) : truthy s = false <-> s = "".
Proof.
  destruct s; simpl; split; congruence.
Qed.

Lemma truthy_app_r (a b : string) : truthy b = true -> truthy (a ++ b) = true.
Proof.
  destruct a; simpl; auto.
Qed.

(** ** Priority *)

Section PriorityTheory.

Variable int_of_text : string -> option Z.

Lemma Priority_lt_int (p : Priority) (z : Z) :
  Priority_lt int_of_text p (PyInt z) = Ok (_priority p <? z)%Z.
Proof. reflexivity. Qed.

Lemma Priority_eq_int (p : Priority) (z : Z) :
  Priority_eq int_of_text p (PyInt z) = Ok (_priority p =? z)%Z.
Proof. reflexivity. Qed.

Lemma Priority_le_int (p : Priority) (z : Z) :
  Priority_le int_of_text p (PyInt z) = Ok (_priority p <=? z)%Z.
Proof.
  unfold Priority_le, Priority_lt, Priority_eq; simpl.
  destruct (Z.ltb_spec (_priority p) z) as [Hlt|Hge]; f_equal; symmetry.
  - apply Z.leb_le. lia.
  - destruct (Z.eqb_spec (_priority p) z);
      [apply Z.leb_le | apply Z.leb_gt]; lia.
Qed.

Lemma Priority_gt_int (p : Priority) (z : Z) :
  Priority_gt int_of_text p (PyInt z) = Ok (z <? _priority p)%Z.
Proof.
  unfold Priority_gt, Priority_ne, Priority_lt, Priority_eq; simpl.
  destruct (Z.ltb_spec (_priority p) z) as [Hlt|Hge]; simpl; f_equal; symmetry.
  - apply Z.ltb_ge. lia.
  - destruct (Z.eqb_spec (_priority p) z); simpl;
      [apply Z.ltb_ge | apply Z.ltb_lt]; lia.
Qed.

Lemma Priority_ge_int (p : Priority) (z : Z) :
  Priority_ge int_of_text p (PyInt z) = Ok (z <=? _priority p)%Z.
Proof.
  unfold Priority_ge, Priority_lt; simpl. f_equal.
  destruct (Z.ltb_spec (_priority p) z); simpl; symmetry;
    [apply Z.leb_gt | apply Z.leb_le]; lia.
Qed.

(** A [Priority] on the right is read through [__int__]: every operator
    answers as on the integer it wraps. *)
Lemma Priority_operand (p q : Priority) :
  Priority_lt int_of_text p (PyPriority q)
  = Priority_lt int_of_text p (PyInt (Priority_int q))
  /\ Priority_eq int_of_text p (PyPriority q)
     = Priority_eq int_of_text p (PyInt (Priority_int q))
  /\ Priority_le int_of_text p (PyPriority q)
     = Priority_le int_of_text p (PyInt (Priority_int q))
  /\ Priority_gt int_of_text p (PyPriority q)
     = Priority_gt int_of_text p (PyInt (Priority_int q))
  /\ Priority_ge int_of_text p (PyPriority q)
     = Priority_ge int_of_text p (PyInt (Priority_int q)).
Proof. repeat split. Qed.

Lemma Priority_ext (p q : Priority) : _priority p = _priority q -> p = q.
Proof. destruct p, q; simpl; congruence. Qed.

(** C7: the comparison operators of [Priority] take a [Priority] or an
    integer on the right, converting it with [int] first; [__eq__] and
    [__lt__], with the operators [total_ordering] derives from them,
    order the priorities totally: [<=] is reflexive, antisymmetric,
    transitive and total, exactly one of [<], [==], [>] holds, and [>],
    [>=] mirror [<], [<=].  Priority(0) < Priority(1), Priority(3) == 3
    and Priority(3) < 4. *)
Theorem Priority_total_ordering :
  (forall p q,
      Priority_lt int_of_text p (PyPriority q)
      = Ok (_priority p <? _priority q)%Z
      /\ Priority_eq int_of_text p (PyPriority q)
         = Ok (_priority p =? _priority q)%Z)
  /\ (forall p z,
      Priority_lt int_of_text p (PyInt z) = Ok (_priority p <? z)%Z
      /\ Priority_eq int_of_text p (PyInt z) = Ok (_priority p =? z)%Z)
  /\ (forall p, Priority_le int_of_text p (PyPriority p) = Ok true)
  /\ (forall p q,
      Priority_le int_of_text p (PyPriority q) = Ok true ->
      Priority_le int_of_text q (PyPriority p) = Ok true ->
      Priority_eq int_of_text p (PyPriority q) = Ok true /\ p = q)
  /\ (forall p q r,
      Priority_le int_of_text p (PyPriority q) = Ok true ->
      Priority_le int_of_text q (PyPriority r) = Ok true ->
      Priority_le int_of_text p (PyPriority r) = Ok true)
  /\ (forall p q,
      Priority_le int_of_text p (PyPriority q) = Ok true
      \/ Priority_le int_of_text q (PyPriority p) = Ok true)
  /\ (forall p q,
      (Priority_lt int_of_text p (PyPriority q) = Ok true
       /\ Priority_eq int_of_text p (PyPriority q) = Ok false
       /\ Priority_gt int_of_text p (PyPriority q) = Ok false)
      \/ (Priority_lt int_of_text p (PyPriority q) = Ok false
          /\ Priority_eq int_of_text p (PyPriority q) = Ok true
          /\ Priority_gt int_of_text p (PyPriority q) = Ok false)
      \/ (Priority_lt int_of_text p (PyPriority q) = Ok false
          /\ Priority_eq int_of_text p (PyPriority q) = Ok false
          /\ Priority_gt int_of_text p (PyPriority q) = Ok true))
  /\ (forall p q,
      Priority_gt int_of_text p (PyPriority q)
      = Priority_lt int_of_text q (PyPriority p)
      /\ Priority_ge int_of_text p (PyPriority q)
         = Priority_le int_of_text q (PyPriority p))
  /\ Priority_lt int_of_text (mkPriority 0) (PyPriority (mkPriority 1)) = Ok true
  /\ Priority_eq int_of_text (mkPriority 3) (PyInt 3) = Ok true
  /\ Priority_lt int_of_text (mkPriority 3) (PyInt 4) = Ok true.
Proof.
  split; [intros p q; split; reflexivity|].
  split; [intros p z; split; reflexivity|].
  split.
  { intros p. destruct (Priority_operand p p) as (_ & _ & -> & _).
    rewrite Priority_le_int. f_equal. apply Z.leb_le. unfold Priority_int. lia. }
  split.
  { intros p q Hpq Hqp.
    destruct (Priority_operand p q) as (_ & Heq & Hle & _).
    destruct (Priority_operand q p) as (_ & _ & Hle' & _).
    rewrite Hle, Priority_le_int in Hpq. rewrite Hle', Priority_le_int in Hqp.
    injection Hpq as Hpq. injection Hqp as Hqp.
    apply Z.leb_le in Hpq, Hqp. unfold Priority_int in *.
    assert (Heq' : _priority p = _priority q) by lia.
    split; [|now apply Priority_ext].
    rewrite Heq, Priority_eq_int. f_equal. now apply Z.eqb_eq. }
  split.
  { intros p q r Hpq Hqr.
    destruct (Priority_operand p q) as (_ & _ & Hle & _).
    destruct (Priority_operand q r) as (_ & _ & Hle' & _).
    destruct (Priority_operand p r) as (_ & _ & Hle'' & _).
    rewrite Hle, Priority_le_int in Hpq. rewrite Hle', Priority_le_int in Hqr.
    rewrite Hle'', Priority_le_int.
    injection Hpq as Hpq. injection Hqr as Hqr. f_equal.
    apply Z.leb_le in Hpq, Hqr. apply Z.leb_le. unfold Priority_int in *. lia. }
  split.
  { intros p q.
    destruct (Priority_operand p q) as (_ & _ & -> & _).
    destruct (Priority_operand q p) as (_ & _ & -> & _).
    rewrite !Priority_le_int. unfold Priority_int.
    destruct (Z.le_ge_cases (_priority p) (_priority q)) as [Hle|Hle];
      [left | right]; f_equal; now apply Z.leb_le. }
  split.
  { intros p q.
    destruct (Priority_operand p q) as (-> & -> & _ & -> & _).
    rewrite Priority_lt_int, Priority_eq_int, Priority_gt_int.
    unfold Priority_int.
    destruct (Z.lt_trichotomy (_priority p) (_priority q)) as [Hlt|[Heq|Hgt]].
    - left. repeat split; f_equal;
        [apply Z.ltb_lt | apply Z.eqb_neq | apply Z.ltb_ge]; lia.
    - right; left. repeat split; f_equal;
        [apply Z.ltb_ge | apply Z.eqb_eq | apply Z.ltb_ge]; lia.
    - right; right. repeat split; f_equal;
        [apply Z.ltb_ge | apply Z.eqb_neq | apply Z.ltb_lt]; lia. }
  split.
  { intros p q.
    destruct (Priority_operand p q) as (_ & _ & _ & -> & ->).
    destruct (Priority_operand q p) as (-> & _ & -> & _).
    now rewrite Priority_gt_int, Priority_ge_int, Priority_lt_int,
      Priority_le_int. }
  repeat split.
Qed.

(** C10: when [int] cannot convert the right operand, [__eq__] and
    [__lt__] both fail with the error [int] raised (TypeError for
    [None], ValueError for a text that is no integer literal); neither
    answers [False]. *)
Theorem Priority_compare_unconvertible (self : Priority) (other : pyobj)
    (e : exn) :
  int_ int_of_text other = Raise e ->
  (Priority_eq int_of_text self other = Raise e
   /\ Priority_lt int_of_text self other = Raise e)
  /\ (Priority_eq int_of_text self other <> Ok false
      /\ Priority_lt int_of_text self other <> Ok false)
  /\ (other = PyNone -> e = TypeError)
  /\ (forall s, other = PyStr s -> e = ValueError /\ int_of_text s = None).
Proof.
  intros Hint. unfold Priority_eq, Priority_lt. rewrite Hint. simpl.
  repeat split; try discriminate.
  - intros ->. simpl in Hint. congruence.
  - subst other. simpl in Hint. destruct (int_of_text s); congruence.
  - subst other. simpl in Hint. destruct (int_of_text s); congruence.
Qed.

End PriorityTheory.

Lemma Priority_total_ordering_witness :
  Priority_le sample_int_of_text (mkPriority 1) (PyPriority (mkPriority 3))
  = Ok true.
Proof.
  destruct (Priority_total_ordering sample_int_of_text)
    as (_ & _ & _ & _ & Htrans & _).
  apply (Htrans (mkPriority 1) (mkPriority 2) (mkPriority 3)); reflexivity.
Defined.

Lemma Priority_compare_unconvertible_witness :
  Priority_eq sample_int_of_text (mkPriority 3) PyNone = Raise TypeError
  /\ Priority_lt sample_int_of_text (mkPriority 3) PyNone = Raise TypeError.
Proof.
  apply (Priority_compare_unconvertible sample_int_of_text (mkPriority 3) PyNone
           (e := TypeError)).
  reflexivity.
Defined.

(** ** LinkTypeField *)

Lemma ascii_char_lower (c : ascii) :
  ascii_char c = true -> ascii_char (lower_ascii c) = true.
Proof.
  destruct c as [[] [] [] [] [] [] [] []]; intros Hc; try reflexivity;
    discriminate Hc.
Qed.

Lemma is_ascii_append (a b : string) :
  is_ascii (a ++ b) = is_ascii a && is_ascii b.
Proof.
  induction a as [|c a IH]; simpl; [reflexivity|].
  now rewrite IH, andb_assoc.
Qed.

Lemma is_ascii_replace (old : ascii) (new s : string) :
  is_ascii new = true -> is_ascii s = true ->
  is_ascii (replace old new s) = true.
Proof.
  intros Hnew. induction s as [|c s IH]; simpl; intros Hs; [reflexivity|].
  apply andb_true_iff in Hs as [Hc Hs].
  destruct (Ascii.eqb c old); simpl.
  - now rewrite is_ascii_append, Hnew, IH.
  - now rewrite Hc, IH.
Qed.

Lemma is_ascii_lower (s : string) :
  is_ascii s = true -> is_ascii (lower s) = true.
Proof.
  induction s as [|c s IH]; simpl; intros Hs; [reflexivity|].
  apply andb_true_iff in Hs as [Hc Hs].
  now rewrite ascii_char_lower, IH.
Qed.

(** [link_text_ascii] drops every hyphen and underscore and lowercases
    what is left, character by character. *)
Lemma link_text_cons (c : ascii) (s : string) :
  link_text_ascii (String c s) =
  if Ascii.eqb c "-" || Ascii.eqb c "_" then link_text_ascii s
  else String (lower_ascii c) (link_text_ascii s).
Proof.
  unfold link_text_ascii. simpl.
  destruct (Ascii.eqb_spec c "-") as [->|Hh]; simpl; [reflexivity|].
  destruct (Ascii.eqb_spec c "_") as [->|Hu]; reflexivity.
Qed.

Lemma link_text_nil : link_text_ascii "" = "".
Proof. reflexivity. Qed.

Lemma is_ascii_link_text_ascii (s : string) :
  is_ascii s = true -> is_ascii (link_text_ascii s) = true.
Proof.
  intros Hs. unfold link_text_ascii.
  apply is_ascii_lower. repeat apply is_ascii_replace; auto.
Qed.

Section LinkTypeTheory.

Variable LinkType : Type.
Variables hardlink softlink : LinkType.
Variable LinkType_members : list (string * LinkType).
Variable str_lower : string -> string.

(** Where [s.lower()] is the ASCII lowercasing on ASCII text, the
    normalization of an ASCII text is [link_text_ascii]. *)
Lemma link_text_on_ascii (s : string) :
  (forall t, is_ascii t = true -> str_lower t = lower t) ->
  is_ascii s = true ->
  link_text str_lower s = link_text_ascii s.
Proof.
  intros Hlower Hs. unfold link_text, link_text_ascii.
  apply Hlower. repeat apply is_ascii_replace; auto.
Qed.

(** C8: [LinkTypeField.box] strips hyphens and underscores from a text
    and lowercases it, maps "hard" to the hardlink member and "soft" to
    the softlink member, and hands the outcome to the strict enum
    matching; a text that matches nothing fails with the
    invalid-enum-value error.  With [s.lower()] lowering the ASCII
    letters of an ASCII text and keeping its other characters, an
    ASCII text is normalized by [link_text_ascii]; "hard-link",
    "hard_link" and "HARDLINK" all reach the matching as "hardlink"
    and so normalize alike, to the hardlink member when "hardlink" is
    its spelling. *)
Theorem LinkTypeField_box_normalizes :
  (forall s : string,
      LinkTypeField_box hardlink softlink LinkType_members str_lower (LText s) =
      if String.eqb (link_text str_lower s) "hard" then Ok hardlink
      else if String.eqb (link_text str_lower s) "soft" then Ok softlink
      else EnumField_box LinkType_members (LText (link_text str_lower s)))
  /\ (forall s : string,
      link_text str_lower s = str_lower (replace "_" "" (replace "-" "" s)))
  /\ (forall m : LinkType,
      LinkTypeField_box hardlink softlink LinkType_members str_lower (LMember m)
      = Ok m)
  /\ (forall s : string,
      link_text str_lower s <> "hard" -> link_text str_lower s <> "soft" ->
      member_of_spelling LinkType_members (link_text str_lower s) = None ->
      LinkTypeField_box hardlink softlink LinkType_members str_lower (LText s)
      = Raise ValidationError)
  /\ ((forall t, is_ascii t = true -> str_lower t = lower t) ->
      (forall s : string,
          is_ascii s = true -> link_text str_lower s = link_text_ascii s)
      /\ (link_text str_lower "hard-link" = "hardlink"
          /\ link_text str_lower "hard_link" = "hardlink"
          /\ link_text str_lower "HARDLINK" = "hardlink")
      /\ (LinkTypeField_box hardlink softlink LinkType_members str_lower
            (LText "hard-link")
          = LinkTypeField_box hardlink softlink LinkType_members str_lower
              (LText "hard_link")
          /\ LinkTypeField_box hardlink softlink LinkType_members str_lower
               (LText "hard_link")
             = LinkTypeField_box hardlink softlink LinkType_members str_lower
                 (LText "HARDLINK"))
      /\ (member_of_spelling LinkType_members "hardlink" = Some hardlink ->
          LinkTypeField_box hardlink softlink LinkType_members str_lower
            (LText "hard-link") = Ok hardlink
          /\ LinkTypeField_box hardlink softlink LinkType_members str_lower
               (LText "hard_link") = Ok hardlink
          /\ LinkTypeField_box hardlink softlink LinkType_members str_lower
               (LText "HARDLINK") = Ok hardlink)
      /\ (LinkTypeField_box hardlink softlink LinkType_members str_lower
            (LText "hard") = Ok hardlink
          /\ LinkTypeField_box hardlink softlink LinkType_members str_lower
               (LText "soft") = Ok softlink)).
Proof.
  assert (Hbox : forall s : string,
      LinkTypeField_box hardlink softlink LinkType_members str_lower (LText s) =
      if String.eqb (link_text str_lower s) "hard" then Ok hardlink
      else if String.eqb (link_text str_lower s) "soft" then Ok softlink
      else EnumField_box LinkType_members (LText (link_text str_lower s))).
  { intros s. unfold LinkTypeField_box.
    destruct (String.eqb (link_text str_lower s) "hard"); [reflexivity|].
    destruct (String.eqb (link_text str_lower s) "soft"); reflexivity. }
  split; [exact Hbox|].
  split; [reflexivity|].
  split; [reflexivity|].
  split.
  { intros s Hhard Hsoft Hnone. rewrite Hbox.
    apply String.eqb_neq in Hhard, Hsoft. rewrite Hhard, Hsoft.
    simpl. now rewrite Hnone. }
  intros Hlower.
  assert (H1 : link_text str_lower "hard-link" = "hardlink")
    by (now rewrite link_text_on_ascii).
  assert (H2 : link_text str_lower "hard_link" = "hardlink")
    by (now rewrite link_text_on_ascii).
  assert (H3 : link_text str_lower "HARDLINK" = "hardlink")
    by (now rewrite link_text_on_ascii).
  assert (H4 : link_text str_lower "hard" = "hard")
    by (now rewrite link_text_on_ascii).
  assert (H5 : link_text str_lower "soft" = "soft")
    by (now rewrite link_text_on_ascii).
  split; [intros s Hs; now apply link_text_on_ascii|].
  split; [now repeat split|].
  split; [rewrite !Hbox, H1, H2, H3; now split|].
  split.
  { intros Hname. rewrite !Hbox, H1, H2, H3.
    unfold EnumField_box. simpl. rewrite Hname. repeat split. }
  rewrite !Hbox, H4, H5. split; reflexivity.
Qed.

End LinkTypeTheory.

(** ** FeaturesField *)

(** A sequence is stored as it is: same elements, same order, same
    duplicates. *)
Lemma FeaturesField_box_seq (l : list string) :
  FeaturesField_box (FSeq l) = FSeq l.
Proof. reflexivity. Qed.

(** A stored sequence is dumped with one blank between two elements,
    and the empty sequence as the empty text. *)
Lemma FeaturesField_dump_seq (l : list string) :
  FeaturesField_dump (FSeq l) = String.concat " " l
  /\ FeaturesField_dump (FSeq []) = "".
Proof. split; reflexivity. Qed.

(** The text of a features field is cut at every comma and at every
    blank. *)
Lemma FeaturesField_box_text (s : string) :
  FeaturesField_box (FText s) = FSeq (split "," (replace " " "," s)).
Proof. reflexivity. Qed.

(** C5, on the input "a, b c": the blank after the comma is a
    separator of its own, so an empty feature is stored between "a" and
    "b" and the dump has two blanks there. *)
Theorem FeaturesField_box_adjacent_separators :
  FeaturesField_box (FText "a, b c") = FSeq ["a"; ""; "b"; "c"]
  /\ FeaturesField_dump (FeaturesField_box (FText "a, b c")) = "a  b c"
  /\ FeaturesField_box (FText "a, b c") <> FSeq ["a"; "b"; "c"]
  /\ FeaturesField_dump (FeaturesField_box (FText "a, b c")) <> "a b c".
Proof.
  repeat split; discriminate.
Qed.

(** ** Derived fields *)

Section RecordsTheory.

Variable Channel_of : option string -> Channel.t.
Variable context_subdir : string.

Context {T : Type} `{Instance T}.

Lemma ChannelField_get_total (instance : T) :
  exists c, ChannelField_get Channel_of instance = Ok c.
Proof.
  unfold ChannelField_get, attr_url.
  destruct (stored_channel instance); simpl; [eauto|].
  destruct (stored_url instance); simpl; eauto.
Qed.

(** The architecture token: "x86" with "64" is "64", "x86" without is
    "32", anything else is kept. *)
Lemma arch_token_cases (arch : string) :
  (contains "x86" arch = true /\ contains "64" arch = true
   /\ arch_token arch = "64")
  \/ (contains "x86" arch = true /\ contains "64" arch = false
      /\ arch_token arch = "32")
  \/ (contains "x86" arch = false /\ arch_token arch = arch).
Proof.
  unfold arch_token.
  destruct (contains "x86" arch); [|now right; right].
  destruct (contains "64" arch); [now left | now right; left].
Qed.

Lemma arch_token_samples :
  arch_token "x86_64" = "64" /\ arch_token "x86" = "32"
  /\ arch_token "armv7l" = "armv7l" /\ arch_token "ppc64le" = "ppc64le".
Proof. repeat split. Qed.

(** What [SubdirField.__get__] returns, step by step. *)
Lemma SubdirField_get_stored_arch (instance : T) :
  SubdirField_get Channel_of context_subdir instance =
  Ok (subdir_chain_stored_arch Channel_of context_subdir instance).
Proof.
  unfold SubdirField_get, subdir_chain_stored_arch, url_present, platform_set,
    arch_set, platform_arch, attr_url, attr_platform, attr_arch, unbox.
  destruct (stored_subdir instance) as [s|]; simpl; [reflexivity|].
  destruct (stored_url instance) as [| |u]; simpl;
    try (destruct (truthy u) eqn:Hu; simpl; [reflexivity|]);
    (destruct (stored_platform instance) as [| |m]; simpl; try reflexivity;
     destruct (stored_arch instance) as [| |a]; simpl;
     destruct (truthy (Enum.name m)); simpl; try reflexivity;
     destruct (truthy a); reflexivity).
Qed.

(** The two chains part only where a platform is stored and the
    architecture was never assigned. *)
Lemma subdir_chain_stored_arch_agree (instance : T) :
  stored_arch instance <> Unset ->
  subdir_chain_stored_arch Channel_of context_subdir instance =
  subdir_chain Channel_of context_subdir instance.
Proof.
  intros Harch. unfold subdir_chain_stored_arch, subdir_chain, arch_set.
  destruct (stored_subdir instance); [reflexivity|].
  destruct (url_present instance); [reflexivity|].
  destruct (platform_set instance); [|reflexivity].
  destruct (stored_arch instance) as [| |a]; [congruence|reflexivity|].
  destruct (truthy a); reflexivity.
Qed.

(** C3, as the code has it: the subdir accessor returns the first value
    of the chain: the stored value; else the subdir of the channel
    parsed from a present URL; else, with a platform set, "noarch"
    when the architecture is stored as [None] or empty and
    "platform-architecture" when it is set (a token with "x86" becomes
    "64" if it has "64" too and "32" otherwise); else the default
    subdirectory, which is also the answer when a platform is set and
    the architecture was never assigned.  Whenever the architecture was
    assigned, this is the chain of the specification.  The URL
    "https://repo/linux-64/foo-1.0-0.tar.bz2", whose channel has subdir
    "linux-64", gives "linux-64"; platform linux with architecture
    "x86_64" and no URL gives "linux-64"; platform win with the
    architecture stored as [None] gives "noarch". *)
Theorem SubdirField_get_fallback (instance : T) :
  SubdirField_get Channel_of context_subdir instance
  = Ok (subdir_chain_stored_arch Channel_of context_subdir instance)
  /\ (stored_arch instance <> Unset ->
      SubdirField_get Channel_of context_subdir instance
      = Ok (subdir_chain Channel_of context_subdir instance))
  /\ (stored_subdir instance = None ->
      stored_url instance = Val "https://repo/linux-64/foo-1.0-0.tar.bz2" ->
      Channel.subdir (Channel_of (Some "https://repo/linux-64/foo-1.0-0.tar.bz2"))
      = Some "linux-64" ->
      SubdirField_get Channel_of context_subdir instance = Ok (Some "linux-64"))
  /\ (forall m : Enum.t,
      stored_subdir instance = None -> url_present instance = None ->
      stored_platform instance = Val m -> Enum.name m = "linux" ->
      stored_arch instance = Val "x86_64" ->
      SubdirField_get Channel_of context_subdir instance = Ok (Some "linux-64"))
  /\ (forall m : Enum.t,
      stored_subdir instance = None -> url_present instance = None ->
      stored_platform instance = Val m -> Enum.name m = "win" ->
      stored_arch instance = Null ->
      SubdirField_get Channel_of context_subdir instance = Ok (Some "noarch"))
  /\ (stored_subdir instance = None -> url_present instance = None ->
      stored_arch instance = Unset ->
      SubdirField_get Channel_of context_subdir instance
      = Ok (Some context_subdir)).
Proof.
  rewrite SubdirField_get_stored_arch.
  split; [reflexivity|].
  split; [intros Harch; now rewrite subdir_chain_stored_arch_agree|].
  unfold subdir_chain_stored_arch, url_present, platform_set, arch_set.
  split; [intros -> -> Hsub; simpl; now rewrite Hsub|].
  split; [intros m -> Hurl -> Hname ->; unfold url_present in Hurl;
          rewrite Hurl, Hname; reflexivity|].
  split; [intros m -> Hurl -> Hname ->; unfold url_present in Hurl;
          rewrite Hurl, Hname; reflexivity|].
  intros -> Hurl ->. unfold url_present in Hurl. rewrite Hurl.
  destruct (stored_platform instance) as [| |m]; try reflexivity.
  destruct (truthy (Enum.name m)); reflexivity.
Qed.

Lemma synthesized_fn_truthy (instance : T) :
  truthy (synthesized_fn instance) = true.
Proof.
  unfold synthesized_fn. now apply truthy_app_r.
Qed.

(** [FilenameField.__get__] never fails, and what it derives is never
    empty. *)
Lemma FilenameField_get_total (instance : T) :
  exists fn, FilenameField_get Channel_of instance = Ok fn
             /\ (stored_fn instance = None -> fn <> "").
Proof.
  unfold FilenameField_get, attr_url, unbox.
  destruct (stored_fn instance) as [s|]; cbn -[truthy append].
  { exists s. split; [reflexivity | discriminate]. }
  pose proof (synthesized_fn_truthy instance) as Hsyn.
  unfold synthesized_fn in Hsyn.
  assert (Hderived : forall fn : string,
             truthy fn = true ->
             exists fn', (if truthy fn then Ok fn else Raise AssertionError)
                         = Ok fn'
                         /\ (@None string = None -> fn' <> "")).
  { intros fn Hfn. rewrite Hfn. exists fn. split; [reflexivity|].
    intros _. now apply truthy_true. }
  destruct (stored_url instance) as [| |u]; cbn -[truthy append].
  - now apply Hderived.
  - destruct (Channel.package_filename (Channel_of None)) as [f|];
      cbn -[truthy append]; [|now apply Hderived].
    destruct (truthy f) eqn:Hf; cbn -[truthy append]; now apply Hderived.
  - destruct (Channel.package_filename (Channel_of (Some u))) as [f|];
      cbn -[truthy append]; [|now apply Hderived].
    destruct (truthy f) eqn:Hf; cbn -[truthy append]; now apply Hderived.
Qed.

Lemma FilenameField_get_chain (instance : T) :
  (forall u, truthy_opt u = false ->
             truthy_opt (Channel.package_filename (Channel_of u)) = false) ->
  FilenameField_get Channel_of instance = Ok (filename_chain Channel_of instance).
Proof.
  intros Hparser.
  unfold FilenameField_get, filename_chain, url_present, attr_url, unbox.
  destruct (stored_fn instance) as [s|]; cbn -[truthy append]; [reflexivity|].
  pose proof (synthesized_fn_truthy instance) as Hsyn.
  unfold synthesized_fn in *.
  destruct (stored_url instance) as [| |u]; cbn -[truthy append].
  - now rewrite Hsyn.
  - rewrite (Hparser None eq_refl). cbn -[truthy append]. now rewrite Hsyn.
  - destruct (truthy u) eqn:Hu.
    + destruct (Channel.package_filename (Channel_of (Some u))) as [f|];
        cbn -[truthy append].
      * destruct (truthy f) eqn:Hf; cbn -[truthy append];
          [now rewrite Hf | now rewrite Hsyn].
      * now rewrite Hsyn.
    + rewrite (Hparser (Some u) Hu). cbn -[truthy append]. now rewrite Hsyn.
Qed.

(** C4, as the code has it: the filename accessor never fails; it
    returns the stored value when there is one, as it is; what it
    derives otherwise is never empty.  With a parser that finds no
    filename in a missing or empty URL, the accessor returns the first
    value of the chain: the stored value; else the package filename of
    the channel parsed from a present URL, unless that is nothing; else
    "name-version-build".  numpy, 1.2, 0 with no URL and no stored
    filename gives "numpy-1.2-0". *)
Theorem FilenameField_get_fallback (instance : T) :
  (exists fn, FilenameField_get Channel_of instance = Ok fn
              /\ (stored_fn instance = None -> fn <> ""))
  /\ (forall s, stored_fn instance = Some s ->
                FilenameField_get Channel_of instance = Ok s)
  /\ ((forall u, truthy_opt u = false ->
                 truthy_opt (Channel.package_filename (Channel_of u)) = false) ->
      FilenameField_get Channel_of instance
      = Ok (filename_chain Channel_of instance))
  /\ (stored_fn instance = None -> stored_url instance = Unset ->
      attr_name instance = "numpy" -> attr_version instance = "1.2" ->
      attr_build instance = "0" ->
      FilenameField_get Channel_of instance = Ok "numpy-1.2-0").
Proof.
  split; [apply FilenameField_get_total|].
  split.
  { intros s Hs. unfold FilenameField_get. now rewrite Hs. }
  split; [apply FilenameField_get_chain|].
  intros Hfn Hurl Hn Hv Hb.
  unfold FilenameField_get, attr_url. rewrite Hfn, Hurl, Hn, Hv, Hb. reflexivity.
Qed.

(** [_pkey] never fails: both derived fields it reads always answer. *)
Lemma _pkey_total (instance : T) :
  exists k, _pkey Channel_of context_subdir instance = Ok k.
Proof.
  unfold _pkey.
  destruct (ChannelField_get_total instance) as [c ->].
  rewrite SubdirField_get_stored_arch. simpl. eauto.
Qed.

End RecordsTheory.

(** ** Identity, equality and hash *)

Lemma option_eqb_eq (a b : option string) : option_eqb a b = true <-> a = b.
Proof.
  destruct a, b; simpl; try (split; congruence).
  rewrite String.eqb_eq. split; congruence.
Qed.

(** [==] on identity keys is equality of the five components. *)
Lemma pkey_eqb_eq (a b : pkey) : pkey_eqb a b = true <-> a = b.
Proof.
  destruct a as [[[[c1 s1] n1] v1] b1], b as [[[[c2 s2] n2] v2] b2].
  unfold pkey_eqb.
  rewrite !andb_true_iff, !String.eqb_eq, option_eqb_eq.
  split.
  - intros ((((-> & ->) & ->) & ->) & ->). reflexivity.
  - intros [= -> -> -> -> ->]. repeat split.
Qed.

Lemma pkey_eqb_refl (a : pkey) : pkey_eqb a a = true.
Proof. now apply pkey_eqb_eq. Qed.

Section EqualityTheory.

Variable Channel_of : option string -> Channel.t.
Variable context_subdir : string.
Variable hash : pkey -> Z.

(** [__eq__] on two values that both have the key: the comparison of
    the two keys. *)
Lemma PackageRef_eq_keys {T : Type} `{Instance T} (self : T) (other : pyobj)
    (ks ko : pkey) :
  _pkey Channel_of context_subdir self = Ok ks ->
  getattr_pkey Channel_of context_subdir other = Ok ko ->
  PackageRef_eq Channel_of context_subdir self other = Ok (pkey_eqb ks ko).
Proof.
  intros Hs Ho. unfold PackageRef_eq. now rewrite Hs, Ho.
Qed.


(** C6: [__eq__] against a value that has no identity key fails with
    the error of the missing [_pkey] attribute; it never answers
    [False].  [None], an integer, a text, a [Priority] and an
    [IndexJsonRecord] are such values. *)
Theorem PackageRef_eq_no_pkey {T : Type} `{Instance T} (self : T) (other : pyobj) :
  (forall k, getattr_pkey Channel_of context_subdir other <> Ok k) ->
  PackageRef_eq Channel_of context_subdir self other = Raise AttributeError
  /\ PackageRef_eq Channel_of context_subdir self other <> Ok false
  /\ (forall z s p r,
      PackageRef_eq Channel_of context_subdir self PyNone = Raise AttributeError
      /\ PackageRef_eq Channel_of context_subdir self (PyInt z)
         = Raise AttributeError
      /\ PackageRef_eq Channel_of context_subdir self (PyStr s)
         = Raise AttributeError
      /\ PackageRef_eq Channel_of context_subdir self (PyPriority p)
         = Raise AttributeError
      /\ PackageRef_eq Channel_of context_subdir self (PyIndexJsonRecord r)
         = Raise AttributeError).
Proof.
  intros Hno.
  destruct (_pkey_total Channel_of context_subdir self) as [ks Hs].
  assert (Hraise : PackageRef_eq Channel_of context_subdir self other
                   = Raise AttributeError).
  { unfold PackageRef_eq. rewrite Hs. simpl.
    destruct other; simpl; try reflexivity.
    - destruct (_pkey_total Channel_of context_subdir r) as [k Hk].
      exfalso. apply (Hno k). exact Hk.
    - destruct (_pkey_total Channel_of context_subdir r) as [k Hk].
      exfalso. apply (Hno k). exact Hk. }
  split; [exact Hraise|].
  split; [rewrite Hraise; discriminate|].
  intros z s p r. unfold PackageRef_eq. rewrite Hs. repeat split.
Qed.

(** C9: [__eq__] and [__hash__] check no class: whatever the class of
    the two values, when both have the identity key they compare equal
    exactly when the keys are equal, and the left value then hashes to
    the hash of the right key.  So it is between a [PackageRef] and a
    [PackageRecord], either way round, and the two hash alike when they
    compare equal. *)
Theorem PackageRef_eq_any_class :
  (forall (T : Type) (I : Instance T) (self : T) (other : pyobj) (ks ko : pkey),
      _pkey Channel_of context_subdir self = Ok ks ->
      getattr_pkey Channel_of context_subdir other = Ok ko ->
      (PackageRef_eq Channel_of context_subdir self other = Ok true <-> ks = ko)
      /\ (PackageRef_eq Channel_of context_subdir self other = Ok false
          <-> ks <> ko)
      /\ (PackageRef_eq Channel_of context_subdir self other = Ok true ->
          PackageRef_hash Channel_of context_subdir hash self = Ok (hash ko)))
  /\ (forall (r : PackageRef) (p : PackageRecord),
      (PackageRef_eq Channel_of context_subdir r (PyPackageRecord p) = Ok true
       <-> _pkey Channel_of context_subdir r = _pkey Channel_of context_subdir p)
      /\ (PackageRef_eq Channel_of context_subdir p (PyPackageRef r) = Ok true
          <-> _pkey Channel_of context_subdir p = _pkey Channel_of context_subdir r)
      /\ (PackageRef_eq Channel_of context_subdir r (PyPackageRecord p) = Ok true ->
          PackageRef_hash Channel_of context_subdir hash r
          = PackageRef_hash Channel_of context_subdir hash p)
      /\ (PackageRef_eq Channel_of context_subdir p (PyPackageRef r) = Ok true ->
          PackageRef_hash Channel_of context_subdir hash p
          = PackageRef_hash Channel_of context_subdir hash r)).
Proof.
  assert (Hgen : forall (T : Type) (I : Instance T) (self : T) (other : pyobj)
                        (ks ko : pkey),
      _pkey Channel_of context_subdir self = Ok ks ->
      getattr_pkey Channel_of context_subdir other = Ok ko ->
      (PackageRef_eq Channel_of context_subdir self other = Ok true <-> ks = ko)
      /\ (PackageRef_eq Channel_of context_subdir self other = Ok false
          <-> ks <> ko)
      /\ (PackageRef_eq Channel_of context_subdir self other = Ok true ->
          PackageRef_hash Channel_of context_subdir hash self = Ok (hash ko))).
  { intros T I self other ks ko Hs Ho.
    rewrite (PackageRef_eq_keys self other Hs Ho).
    unfold PackageRef_hash. rewrite Hs. simpl.
    split; [|split].
    - rewrite <- pkey_eqb_eq. split; congruence.
    - rewrite <- pkey_eqb_eq. destruct (pkey_eqb ks ko); split; congruence.
    - intros [= Hk]. apply pkey_eqb_eq in Hk. now subst. }
  split; [exact Hgen|].
  intros r p.
  destruct (_pkey_total Channel_of context_subdir r) as [kr Hr].
  destruct (_pkey_total Channel_of context_subdir p) as [kp Hp].
  destruct (Hgen _ _ r (PyPackageRecord p) kr kp Hr Hp) as (H1 & _ & H3).
  destruct (Hgen _ _ p (PyPackageRef r) kp kr Hp Hr) as (H2 & _ & H4).
  rewrite Hr, Hp. split; [|split; [|split]].
  - rewrite H1. split; congruence.
  - rewrite H2. split; congruence.
  - intros He. rewrite (H3 He). unfold PackageRef_hash. now rewrite Hp.
  - intros He. rewrite (H4 He). unfold PackageRef_hash. now rewrite Hr.
Qed.

End EqualityTheory.

(** ** combined_depends *)

Section CombinedDependsTheory.

Variable MatchSpec_t : Type.
Variable MatchSpec : string -> bool -> MatchSpec_t.
Variable MatchSpec_name : MatchSpec_t -> string.

Local Open Scope list_scope.

Lemma in_keys_setitem (d : dict MatchSpec_t) (k : string) (v : MatchSpec_t)
    (x : string) :
  In x (map fst (setitem d k v)) <-> x = k \/ In x (map fst d).
Proof.
  induction d as [|[k' v'] d IH]; simpl.
  - intuition.
  - destruct (String.eqb_spec k' k) as [->|Hne]; simpl.
    + intuition.
    + rewrite IH. intuition.
Qed.

Lemma setitem_notin (d : dict MatchSpec_t) (k : string) (v : MatchSpec_t) :
  ~ In k (map fst d) -> setitem d k v = d ++ [(k, v)].
Proof.
  induction d as [|[k' v'] d IH]; simpl; intros Hn; [reflexivity|].
  destruct (String.eqb_spec k' k) as [->|Hne]; [tauto|].
  f_equal. apply IH. tauto.
Qed.

Lemma setitem_keys_in (d : dict MatchSpec_t) (k : string) (v : MatchSpec_t) :
  In k (map fst d) -> map fst (setitem d k v) = map fst d.
Proof.
  induction d as [|[k' v'] d IH]; simpl; intros Hin; [contradiction|].
  destruct (String.eqb_spec k' k) as [->|Hne]; simpl; [reflexivity|].
  f_equal. apply IH. destruct Hin; [congruence | assumption].
Qed.

(** Assigning keeps the keys where they stand; a new key goes last. *)
Lemma setitem_keys (d : dict MatchSpec_t) (k : string) (v : MatchSpec_t) :
  map fst (setitem d k v) = map fst d
  \/ map fst (setitem d k v) = map fst d ++ [k].
Proof.
  destruct (in_dec string_dec k (map fst d)) as [Hin|Hn].
  - left. now apply setitem_keys_in.
  - right. rewrite setitem_notin by assumption. now rewrite map_app.
Qed.

Lemma setitem_NoDup (d : dict MatchSpec_t) (k : string) (v : MatchSpec_t) :
  NoDup (map fst d) -> NoDup (map fst (setitem d k v)).
Proof.
  induction d as [|[k' v'] d IH]; simpl; intros Hnd.
  - constructor; [intros [] | constructor].
  - destruct (String.eqb_spec k' k) as [->|Hne]; simpl; [assumption|].
    inversion Hnd as [|? ? Hnotin Hnd']; subst.
    constructor; [|now apply IH].
    rewrite in_keys_setitem. intros [->|Hin]; tauto.
Qed.

Lemma setitem_same (d : dict MatchSpec_t) (k : string) (v0 v : MatchSpec_t) :
  setitem (setitem d k v0) k v = setitem d k v.
Proof.
  induction d as [|[k' v'] d IH]; simpl.
  - now rewrite String.eqb_refl.
  - destruct (String.eqb k' k) eqn:E; simpl; rewrite E; [reflexivity|].
    now rewrite IH.
Qed.

(** Assignments to two keys commute once the first key is there. *)
Lemma setitem_comm (d : dict MatchSpec_t) (k k1 : string) (v v1 : MatchSpec_t) :
  k <> k1 -> In k (map fst d) ->
  setitem (setitem d k1 v1) k v = setitem (setitem d k v) k1 v1.
Proof.
  intros Hne. induction d as [|[k' v'] d IH]; simpl; intros Hin; [contradiction|].
  destruct (String.eqb k' k1) eqn:E1; destruct (String.eqb k' k) eqn:E;
    simpl; rewrite ?E1, ?E; try reflexivity.
  - apply String.eqb_eq in E1, E. congruence.
  - f_equal. apply IH. destruct Hin as [Hk|Hin]; [|assumption].
    apply String.eqb_neq in E. congruence.
Qed.

Lemma update_cons (d : dict MatchSpec_t) (k : string) (v : MatchSpec_t)
    (other : dict MatchSpec_t) :
  update d ((k, v) :: other) = update (setitem d k v) other.
Proof. reflexivity. Qed.

Lemma update_setitem_in (other : dict MatchSpec_t) :
  forall (d : dict MatchSpec_t) (k : string) (v : MatchSpec_t),
    In k (map fst d) -> ~ In k (map fst other) ->
    setitem (update d other) k v = update (setitem d k v) other.
Proof.
  induction other as [|[k1 v1] other IH]; intros d k v Hin Hn; [reflexivity|].
  simpl in Hn. rewrite !update_cons.
  rewrite IH; [|apply in_keys_setitem; now right | tauto].
  rewrite setitem_comm; [reflexivity | intros ->; tauto | assumption].
Qed.

(** Updating from a dictionary that got one more assignment is
    updating and then assigning. *)
Lemma update_setitem (other : dict MatchSpec_t) :
  forall (d : dict MatchSpec_t) (k : string) (v : MatchSpec_t),
    NoDup (map fst other) ->
    update d (setitem other k v) = setitem (update d other) k v.
Proof.
  induction other as [|[k' v'] other IH]; intros d k v Hnd; [reflexivity|].
  simpl in Hnd. inversion Hnd as [|? ? Hnotin Hnd']; subst.
  simpl. destruct (String.eqb_spec k' k) as [->|Hne]; rewrite !update_cons.
  - rewrite update_setitem_in; [|apply in_keys_setitem; now left | assumption].
    now rewrite setitem_same.
  - now apply IH.
Qed.

Lemma fold_by_name_NoDup (l : list MatchSpec_t) :
  forall d : dict MatchSpec_t,
    NoDup (map fst d) -> NoDup (map fst (fold_left (by_name MatchSpec_name) l d)).
Proof.
  induction l as [|ms l IH]; simpl; intros d Hnd; [assumption|].
  apply IH. now apply setitem_NoDup.
Qed.

Lemma dict_by_name_NoDup (l : list MatchSpec_t) :
  NoDup (map fst (dict_by_name MatchSpec_name l)).
Proof.
  apply (fold_by_name_NoDup l []). constructor.
Qed.

(** [update] from the dictionary of a comprehension assigns the
    entries of the comprehension one by one. *)
Lemma update_dict_by_name (specs : list MatchSpec_t) (d : dict MatchSpec_t) :
  update d (dict_by_name MatchSpec_name specs)
  = fold_left (by_name MatchSpec_name) specs d.
Proof.
  induction specs as [|ms specs IH] using rev_ind; [reflexivity|].
  unfold dict_by_name in *. rewrite !fold_left_app. simpl.
  unfold by_name at 1 3.
  rewrite update_setitem by apply (dict_by_name_NoDup specs).
  now rewrite IH.
Qed.

Lemma has_name_In (d : dict MatchSpec_t) (k : string) :
  has_name d k = true <-> In k (map fst d).
Proof.
  unfold has_name. rewrite existsb_exists, in_map_iff. split.
  - intros [kv [Hin E]]. apply String.eqb_eq in E. now exists kv.
  - intros [kv [E Hin]]. exists kv. split; [assumption|]. now apply String.eqb_eq.
Qed.

Lemma replace_in_place_notin (d : dict MatchSpec_t) (k : string) (v : MatchSpec_t) :
  ~ In k (map fst d) -> replace_in_place d k v = d.
Proof.
  induction d as [|[k' v'] d IH]; simpl; intros Hn; [reflexivity|].
  destruct (String.eqb_spec k' k) as [->|Hne]; [tauto|].
  f_equal. apply IH. tauto.
Qed.

Lemma setitem_replace_in_place (d : dict MatchSpec_t) (k : string)
    (v : MatchSpec_t) :
  NoDup (map fst d) -> In k (map fst d) ->
  setitem d k v = replace_in_place d k v.
Proof.
  induction d as [|[k' v'] d IH]; simpl; intros Hnd Hin; [contradiction|].
  inversion Hnd as [|? ? Hnotin Hnd']; subst.
  destruct (String.eqb_spec k' k) as [->|Hne].
  - f_equal. symmetry. now apply replace_in_place_notin.
  - f_equal. apply IH; [assumption|]. destruct Hin; [congruence | assumption].
Qed.

(** On a dictionary, the assignment is the insert-or-overwrite of the
    specification. *)
Lemma by_name_insert_or_overwrite (d : dict MatchSpec_t) (ms : MatchSpec_t) :
  NoDup (map fst d) ->
  by_name MatchSpec_name d ms = insert_or_overwrite MatchSpec_name d ms.
Proof.
  intros Hnd. unfold by_name, insert_or_overwrite.
  destruct (has_name d (MatchSpec_name ms)) eqn:E.
  - apply setitem_replace_in_place; [assumption | now apply has_name_In].
  - apply setitem_notin. intros Hin. apply has_name_In in Hin. congruence.
Qed.

Lemma fold_insert_or_overwrite (l : list MatchSpec_t) :
  forall d : dict MatchSpec_t,
    NoDup (map fst d) ->
    fold_left (by_name MatchSpec_name) l d
    = fold_left (insert_or_overwrite MatchSpec_name) l d.
Proof.
  induction l as [|ms l IH]; simpl; intros d Hnd; [reflexivity|].
  rewrite <- by_name_insert_or_overwrite by assumption.
  apply IH. now apply setitem_NoDup.
Qed.

Lemma by_name_well_keyed (d : dict MatchSpec_t) (ms : MatchSpec_t) :
  well_keyed MatchSpec_name d ->
  well_keyed MatchSpec_name (by_name MatchSpec_name d ms).
Proof.
  unfold well_keyed, by_name.
  induction d as [|[k' v'] d IH]; simpl; intros Hd.
  - constructor; [reflexivity | constructor].
  - inversion Hd as [|? ? Hhd Htl]; subst.
    destruct (String.eqb_spec k' (MatchSpec_name ms)) as [E|Hne].
    + constructor; assumption.
    + constructor; [assumption | now apply IH].
Qed.

Lemma fold_by_name_well_keyed (l : list MatchSpec_t) :
  forall d : dict MatchSpec_t,
    well_keyed MatchSpec_name d ->
    well_keyed MatchSpec_name (fold_left (by_name MatchSpec_name) l d).
Proof.
  induction l as [|ms l IH]; simpl; intros d Hd; [assumption|].
  apply IH. now apply by_name_well_keyed.
Qed.

Lemma well_keyed_names (d : dict MatchSpec_t) :
  well_keyed MatchSpec_name d -> map MatchSpec_name (map snd d) = map fst d.
Proof.
  induction 1 as [|kv d Hkv Hd IH]; simpl; [reflexivity|].
  now rewrite IH, Hkv.
Qed.

(** The keys a dictionary has keep their places through any run of
    assignments; new keys come after them. *)
Lemma fold_by_name_keys_prefix (l : list MatchSpec_t) :
  forall d : dict MatchSpec_t,
    exists extra,
      map fst (fold_left (by_name MatchSpec_name) l d) = map fst d ++ extra.
Proof.
  induction l as [|ms l IH]; simpl; intros d.
  - exists []. now rewrite app_nil_r.
  - destruct (IH (by_name MatchSpec_name d ms)) as [extra ->]. unfold by_name.
    destruct (setitem_keys d (MatchSpec_name ms) ms) as [-> | ->].
    + now exists extra.
    + exists (MatchSpec_name ms :: extra). now rewrite <- app_assoc.
Qed.

(** The dictionary [combined_depends] ends with. *)
Lemma combined_depends_fold (depends constrains : list string) :
  combined_depends MatchSpec MatchSpec_name depends constrains =
  map snd
    (fold_left (by_name MatchSpec_name)
       (map (fun spec => MatchSpec spec true) constrains)
       (fold_left (by_name MatchSpec_name)
          (map (fun spec => MatchSpec spec false) depends) [])).
Proof.
  unfold combined_depends, itervalues. now rewrite update_dict_by_name.
Qed.

(** C2: [combined_depends] is the merge of the specification: one
    ordered mapping by package name, each depends entry parsed as
    required in first-seen order, then each constrains entry parsed as
    optional, replacing the entry of its name where it stands or going
    last when the name is new.  The result has one specifier per name,
    and the names from depends keep their places.  For
    depends=["foo >=1"] and constrains=["foo <2"] the result is the one
    specifier of the constrains entry. *)
Theorem combined_depends_merge :
  (forall depends constrains : list string,
      combined_depends MatchSpec MatchSpec_name depends constrains
      = merge_spec MatchSpec MatchSpec_name depends constrains)
  /\ (forall depends constrains : list string,
      NoDup (map MatchSpec_name
               (combined_depends MatchSpec MatchSpec_name depends constrains)))
  /\ (forall depends constrains : list string,
      exists extra,
        map MatchSpec_name
          (combined_depends MatchSpec MatchSpec_name depends constrains)
        = map MatchSpec_name
            (combined_depends MatchSpec MatchSpec_name depends [])
          ++ extra)
  /\ (MatchSpec_name (MatchSpec "foo >=1" false) = "foo"%string ->
      MatchSpec_name (MatchSpec "foo <2" true) = "foo"%string ->
      combined_depends MatchSpec MatchSpec_name ["foo >=1"%string] ["foo <2"%string]
      = [MatchSpec "foo <2" true]).
Proof.
  split; [|split; [|split]].
  - intros depends constrains. rewrite combined_depends_fold.
    unfold merge_spec. f_equal.
    rewrite fold_insert_or_overwrite
      by (apply fold_by_name_NoDup; constructor).
    f_equal. apply fold_insert_or_overwrite. constructor.
  - intros depends constrains. rewrite combined_depends_fold.
    rewrite well_keyed_names
      by (repeat apply fold_by_name_well_keyed; constructor).
    repeat apply fold_by_name_NoDup. constructor.
  - intros depends constrains. rewrite !combined_depends_fold.
    rewrite !well_keyed_names
      by (repeat apply fold_by_name_well_keyed; constructor).
    apply fold_by_name_keys_prefix.
  - intros Hd Hc. unfold combined_depends, dict_by_name, update. simpl.
    rewrite Hd, Hc. reflexivity.
Qed.

End CombinedDependsTheory.

(** ** The theorems at sample inputs *)


Lemma combined_depends_merge_witness :
  combined_depends sample_MatchSpec sample_MatchSpec_name ["foo >=1"] ["foo <2"]
  = [("foo <2", true)].
Proof.
  destruct (combined_depends_merge sample_MatchSpec sample_MatchSpec_name)
    as (_ & _ & _ & Hfoo).
  apply Hfoo; reflexivity.
Defined.

Lemma SubdirField_get_fallback_witness :
  SubdirField_get sample_Channel_of "osx-64" sample_prec_url = Ok (Some "linux-64").
Proof.
  destruct (SubdirField_get_fallback sample_Channel_of "osx-64" sample_prec_url)
    as (_ & _ & Hurl & _).
  apply Hurl; reflexivity.
Defined.

Lemma FilenameField_get_fallback_witness :
  FilenameField_get sample_Channel_of sample_prec_null_url = Ok "foo-1.0-0".
Proof.
  destruct (FilenameField_get_fallback sample_Channel_of sample_prec_null_url)
    as (_ & _ & Hchain & _).
  apply Hchain.
  intros [[|c u]|] Hu; [reflexivity | discriminate | reflexivity].
Defined.

Lemma PackageRef_eq_no_pkey_witness :
  PackageRef_eq sample_Channel_of "osx-64" sample_prec PyNone
  = Raise AttributeError.
Proof.
  assert (Hno : forall k, getattr_pkey sample_Channel_of "osx-64" PyNone <> Ok k)
    by (intros k; discriminate).
  exact (proj1 (PackageRef_eq_no_pkey sample_Channel_of "osx-64" sample_prec
                  PyNone Hno)).
Defined.

Lemma LinkTypeField_box_normalizes_witness :
  LinkTypeField_box 1%Z 2%Z sample_LinkType_members lower (LText "hard-link")
  = Ok 1%Z
  /\ LinkTypeField_box 1%Z 2%Z sample_LinkType_members lower (LText "hard_link")
     = Ok 1%Z
  /\ LinkTypeField_box 1%Z 2%Z sample_LinkType_members lower (LText "HARDLINK")
     = Ok 1%Z.
Proof.
  destruct (LinkTypeField_box_normalizes 1%Z 2%Z sample_LinkType_members lower)
    as (_ & _ & _ & _ & Hascii).
  destruct (Hascii (fun t _ => eq_refl)) as (_ & _ & _ & Hhard & _).
  apply Hhard. reflexivity.
Defined.

Lemma PackageRef_eq_any_class_witness :
  PackageRef_hash sample_Channel_of "osx-64" sample_hash sample_pref
  = PackageRef_hash sample_Channel_of "osx-64" sample_hash sample_prec.
Proof.
  destruct (PackageRef_eq_any_class sample_Channel_of "osx-64" sample_hash)
    as (_ & Href).
  destruct (Href sample_pref sample_prec) as (_ & _ & Hhash & _).
  apply Hhash. reflexivity.
Defined.

(** ** Where the code departs from the specification *)

(** C3: a platform is stored and the architecture was never assigned:
    the accessor answers the default subdirectory, not "noarch". *)
Lemma SubdirField_get_arch_never_assigned :
  SubdirField_get sample_Channel_of "osx-64" sample_prec_win = Ok (Some "osx-64")
  /\ subdir_chain sample_Channel_of "osx-64" sample_prec_win = Some "noarch"
  /\ ~ (forall (Channel_of : option string -> Channel.t) (context_subdir : string)
               (r : PackageRecord),
           SubdirField_get Channel_of context_subdir r
           = Ok (subdir_chain Channel_of context_subdir r)).
Proof.
  split; [reflexivity|]. split; [reflexivity|].
  intros Hall. specialize (Hall sample_Channel_of "osx-64" sample_prec_win).
  discriminate Hall.
Qed.

(** C4: an empty filename is stored: the accessor answers it. *)
Lemma FilenameField_get_stored_empty :
  FilenameField_get sample_Channel_of (set_fn sample_prec (Some "")) = Ok ""
  /\ ~ (forall (Channel_of : option string -> Channel.t) (r : PackageRecord)
               (fn : string),
           FilenameField_get Channel_of r = Ok fn -> fn <> "").
Proof.
  split; [reflexivity|].
  intros Hall.
  apply (Hall sample_Channel_of (set_fn sample_prec (Some "")) ""); reflexivity.
Qed.


(** * Further properties *)

(** ** Text: split, join and replace *)

Lemma append_nil_r (s : string) : s ++ "" = s.
Proof. induction s as [|c s IH]; simpl; [reflexivity | now rewrite IH]. Qed.

Lemma append_assoc (a b c : string) : (a ++ b) ++ c = a ++ (b ++ c).
Proof. induction a as [|x a IH]; simpl; [reflexivity | now rewrite IH]. Qed.

Lemma length_append (a b : string) :
  String.length (a ++ b) = String.length a + String.length b.
Proof. induction a as [|x a IH]; simpl; [reflexivity | now rewrite IH]. Qed.

Lemma append_inv_tail (a b c : string) : a ++ c = b ++ c -> a = b.
Proof.
  revert b; induction a as [|x a IH]; intros [|y b] Heq; simpl in Heq.
  - reflexivity.
  - apply (f_equal String.length) in Heq. simpl in Heq.
    rewrite length_append in Heq. lia.
  - apply (f_equal String.length) in Heq. simpl in Heq.
    rewrite length_append in Heq. lia.
  - injection Heq as -> Heq. f_equal. now apply IH.
Qed.

Lemma rev_string_app (acc s : string) :
  rev_string acc s = rev_string "" s ++ acc.
Proof.
  revert acc; induction s as [|c s IH]; intros acc; simpl; [reflexivity|].
  rewrite (IH (String c acc)), (IH (String c "")), append_assoc. reflexivity.
Qed.

Lemma push_first_push_first (p q : string) (l : list string) :
  push_first p (push_first q l) = push_first (p ++ q) l.
Proof.
  destruct l as [|x xs]; simpl; [reflexivity|]. now rewrite append_assoc.
Qed.

(** The piece being read is the front of the first piece. *)
Lemma split_acc_push (sep : ascii) (s cur : string) :
  split_acc sep cur s = push_first (rev_string "" cur) (split sep s).
Proof.
  unfold split. revert cur; induction s as [|c s IH]; intros cur; simpl.
  - now rewrite append_nil_r.
  - destruct (Ascii.eqb c sep); simpl.
    + now rewrite append_nil_r.
    + rewrite (IH (String c cur)), (IH (String c "")).
      rewrite push_first_push_first. simpl.
      now rewrite (rev_string_app (String c "") cur).
Qed.

Lemma split_nil (sep : ascii) : split sep "" = [""].
Proof. reflexivity. Qed.

(** [split], character by character. *)
Lemma split_cons (sep c : ascii) (s : string) :
  split sep (String c s) =
  if Ascii.eqb c sep then "" :: split sep s
  else push_first (String c "") (split sep s).
Proof.
  unfold split at 1. simpl. destruct (Ascii.eqb c sep); [reflexivity|].
  now rewrite split_acc_push.
Qed.

Lemma split_not_nil (sep : ascii) (s : string) :
  exists x xs, split sep s = x :: xs.
Proof.
  destruct s as [|c s]; [now exists "", []|].
  rewrite split_cons. destruct (Ascii.eqb c sep); [now eexists; eexists|].
  destruct (split sep s); simpl; now eexists; eexists.
Qed.

Lemma join_push_first (new : string) (c : ascii) (l : list string) :
  l <> [] ->
  join new (push_first (String c "") l) = String c (join new l).
Proof.
  destruct l as [|x [|y l]]; simpl; intros Hne; [congruence | reflexivity..].
Qed.

(** [new.join(s.split(sep))] is [s.replace(sep, new)]. *)
Lemma join_split (sep : ascii) (new s : string) :
  join new (split sep s) = replace sep new s.
Proof.
  induction s as [|c s IH]; [reflexivity|].
  rewrite split_cons. simpl.
  destruct (split_not_nil sep s) as (x & xs & Hx).
  destruct (Ascii.eqb c sep).
  - rewrite <- IH, Hx. reflexivity.
  - rewrite join_push_first by (rewrite Hx; discriminate). now rewrite IH.
Qed.

Lemma split_length (sep : ascii) (s : string) :
  length (split sep s) = S (count_char sep s).
Proof.
  induction s as [|c s IH]; [reflexivity|].
  rewrite split_cons. simpl.
  destruct (split_not_nil sep s) as (x & xs & Hx). rewrite Hx in *.
  destruct (Ascii.eqb c sep); simpl in *; now rewrite IH.
Qed.

(** No piece holds the separator, and no piece holds a character the
    text does not hold. *)
Lemma split_pieces (sep c : ascii) (s : string) :
  c = sep \/ char_in c s = false ->
  Forall (fun p => char_in c p = false) (split sep s).
Proof.
  induction s as [|x s IH]; intros Hc.
  - repeat constructor.
  - rewrite split_cons.
    assert (Hs : c = sep \/ char_in c s = false).
    { destruct Hc as [Hc|Hc]; [now left | right].
      simpl in Hc. now apply orb_false_iff in Hc. }
    specialize (IH Hs).
    destruct (Ascii.eqb_spec x sep) as [->|Hne].
    + constructor; [reflexivity | assumption].
    + assert (Hx : Ascii.eqb x c = false).
      { destruct Hc as [->|Hc]; [now apply Ascii.eqb_neq|].
        simpl in Hc. now apply orb_false_iff in Hc. }
      destruct (split sep s) as [|p ps]; simpl.
      * constructor; [simpl; now rewrite Hx | constructor].
      * inversion IH as [|? ? Hp Hps]; subst.
        constructor; [simpl; now rewrite Hx, Hp | assumption].
Qed.

Lemma split_plain (sep : ascii) (x : string) :
  char_in sep x = false -> split sep x = [x].
Proof.
  induction x as [|c x IH]; simpl; intros Hx; [reflexivity|].
  apply orb_false_iff in Hx as [Hc Hx].
  rewrite split_cons, Hc, IH by assumption. reflexivity.
Qed.

Lemma split_app_sep (sep : ascii) (x r : string) :
  char_in sep x = false ->
  split sep (x ++ String sep r) = x :: split sep r.
Proof.
  induction x as [|c x IH]; simpl; intros Hx.
  - now rewrite split_cons, Ascii.eqb_refl.
  - apply orb_false_iff in Hx as [Hc Hx].
    rewrite split_cons, Hc, IH by assumption. reflexivity.
Qed.

(** [sep.join(l).split(sep)] gives [l] back when [l] is not empty and
    no element holds the separator. *)
Lemma split_join (sep : ascii) (l : list string) :
  l <> [] -> Forall (fun x => char_in sep x = false) l ->
  split sep (join (String sep "") l) = l.
Proof.
  induction l as [|x [|y l] IH]; intros Hne Hall; [congruence| |].
  - inversion Hall; subst. now apply split_plain.
  - inversion Hall as [|? ? Hx Hrest]; subst.
    change (join (String sep "") (x :: y :: l))
      with (x ++ String sep (join (String sep "") (y :: l))).
    rewrite split_app_sep by assumption. f_equal.
    apply IH; [discriminate | assumption].
Qed.

Lemma replace_append (old : ascii) (new a b : string) :
  replace old new (a ++ b) = replace old new a ++ replace old new b.
Proof.
  induction a as [|c a IH]; simpl; [reflexivity|].
  destruct (Ascii.eqb c old); simpl; rewrite IH; [|reflexivity].
  now rewrite append_assoc.
Qed.

Lemma replace_plain (old : ascii) (new x : string) :
  char_in old x = false -> replace old new x = x.
Proof.
  induction x as [|c x IH]; simpl; intros Hx; [reflexivity|].
  apply orb_false_iff in Hx as [Hc Hx]. now rewrite Hc, IH.
Qed.

Lemma char_in_append (c : ascii) (a b : string) :
  char_in c (a ++ b) = char_in c a || char_in c b.
Proof.
  induction a as [|x a IH]; simpl; [reflexivity|].
  now rewrite IH, orb_assoc.
Qed.

Lemma replace_gone (old : ascii) (new s : string) :
  char_in old new = false -> char_in old (replace old new s) = false.
Proof.
  intros Hnew. induction s as [|c s IH]; simpl; [reflexivity|].
  destruct (Ascii.eqb c old) eqn:Hc; simpl.
  - now rewrite char_in_append, Hnew, IH.
  - now rewrite Hc.
Qed.

Lemma replace_blank_comma_blank (s : string) :
  replace "," " " (replace " " "," s) = replace "," " " s.
Proof.
  induction s as [|c s IH]; simpl; [reflexivity|].
  destruct (Ascii.eqb_spec c " ") as [->|Hb]; simpl; [now rewrite IH|].
  destruct (Ascii.eqb c ","); simpl; now rewrite IH.
Qed.

Lemma replace_comma_blank_comma (s : string) :
  replace " " "," (replace "," " " s) = replace " " "," s.
Proof.
  induction s as [|c s IH]; simpl; [reflexivity|].
  destruct (Ascii.eqb_spec c ",") as [->|Hc]; simpl; [now rewrite IH|].
  destruct (Ascii.eqb c " "); simpl; now rewrite IH.
Qed.

Lemma replace_char_length (old new : ascii) (s : string) :
  String.length (replace old (String new "") s) = String.length s.
Proof.
  induction s as [|c s IH]; simpl; [reflexivity|].
  destruct (Ascii.eqb c old); simpl; now rewrite IH.
Qed.

Lemma replace_join_plain (l : list string) :
  Forall (fun x => char_in " " x = false) l ->
  replace " " "," (join " " l) = join "," l.
Proof.
  induction l as [|x [|y l] IH]; intros Hall; [reflexivity| |].
  - inversion Hall; subst. simpl. now apply replace_plain.
  - inversion Hall as [|? ? Hx Hrest]; subst.
    change (join " " (x :: y :: l)) with (x ++ " " ++ join " " (y :: l)).
    change (join "," (x :: y :: l)) with (x ++ "," ++ join "," (y :: l)).
    rewrite !replace_append, replace_plain by assumption.
    now rewrite IH.
Qed.

(** ** FeaturesField *)

(** X1: Dumping what [box] made of a text gives the text with every comma
    turned into a blank: no character is dropped and none is added. *)
Theorem FeaturesField_dump_box_text (s : string) :
  FeaturesField_dump (FeaturesField_box (FText s)) = replace "," " " s
  /\ String.length (FeaturesField_dump (FeaturesField_box (FText s)))
     = String.length s.
Proof.
  assert (Hdump : FeaturesField_dump (FeaturesField_box (FText s))
                  = replace "," " " s).
  { unfold FeaturesField_box, ListField_box, FeaturesField_dump.
    now rewrite join_split, replace_blank_comma_blank. }
  split; [exact Hdump|]. rewrite Hdump. apply replace_char_length.
Qed.

(** X2: Boxing the dump of a boxed text stores the same sequence again. *)
Theorem FeaturesField_box_dump_box (s : string) :
  FeaturesField_box (FText (FeaturesField_dump (FeaturesField_box (FText s))))
  = FeaturesField_box (FText s).
Proof.
  unfold FeaturesField_box at 1. unfold ListField_box at 1.
  assert (Hdump : FeaturesField_dump (FeaturesField_box (FText s))
                  = replace "," " " s).
  { unfold FeaturesField_box, ListField_box, FeaturesField_dump.
    now rewrite join_split, replace_blank_comma_blank. }
  rewrite Hdump, replace_comma_blank_comma. reflexivity.
Qed.

(** X3: What [box] stores for a text: one feature more than the text has
    blanks and commas, so never the empty sequence, and no feature
    holds a blank or a comma. *)
Theorem FeaturesField_box_text_pieces (s : string) :
  exists l,
    FeaturesField_box (FText s) = FSeq l
    /\ length l = S (count_char " " s + count_char "," s)
    /\ Forall (fun f => plain_feature f = true) l.
Proof.
  exists (split "," (replace " " "," s)). split; [reflexivity|]. split.
  - rewrite split_length. f_equal.
    induction s as [|c s IH]; simpl; [reflexivity|].
    destruct (Ascii.eqb_spec c " ") as [->|Hb]; simpl; [now rewrite IH|].
    destruct (Ascii.eqb c ","); simpl; rewrite IH; lia.
  - assert (Hb := @split_pieces "," " " (replace " " "," s)
                    (or_intror (@replace_gone " " "," s eq_refl))).
    assert (Hc := @split_pieces "," "," (replace " " "," s)
                    (or_introl eq_refl)).
    rewrite Forall_forall in *. intros f Hf. unfold plain_feature.
    now rewrite (Hb f Hf), (Hc f Hf).
Qed.

(** X4: Dump and box again: a sequence that is not empty and whose
    features hold no blank and no comma comes back as it was; the empty
    sequence comes back as one empty feature. *)
Theorem FeaturesField_box_dump_seq (l : list string) :
  (l <> [] -> Forall (fun f => plain_feature f = true) l ->
   FeaturesField_box (FText (FeaturesField_dump (FSeq l))) = FSeq l)
  /\ FeaturesField_box (FText (FeaturesField_dump (FSeq []))) = FSeq [""].
Proof.
  split; [|reflexivity].
  intros Hne Hall.
  assert (Hb : Forall (fun x => char_in " " x = false) l).
  { eapply Forall_impl; [|exact Hall]. intros f Hf. unfold plain_feature in Hf.
    apply andb_true_iff in Hf as [Hf _]. now apply negb_true_iff in Hf. }
  assert (Hc : Forall (fun x => char_in "," x = false) l).
  { eapply Forall_impl; [|exact Hall]. intros f Hf. unfold plain_feature in Hf.
    apply andb_true_iff in Hf as [_ Hf]. now apply negb_true_iff in Hf. }
  unfold FeaturesField_box, ListField_box, FeaturesField_dump. f_equal.
  rewrite replace_join_plain by assumption.
  now apply (@split_join "," l).
Qed.

Lemma FeaturesField_box_dump_seq_witness :
  FeaturesField_box (FText (FeaturesField_dump (FSeq ["mkl"; "vc14"; "mkl"])))
  = FSeq ["mkl"; "vc14"; "mkl"].
Proof.
  apply (proj1 (FeaturesField_box_dump_seq ["mkl"; "vc14"; "mkl"]));
    [discriminate | repeat constructor].
Defined.

(** ** Priority, once more *)

Section PriorityMore.

Variable int_of_text : string -> option Z.

(** The operators look at the right operand through [int] only. *)
Lemma Priority_ops_int (p : Priority) (other : pyobj) (z : Z) :
  int_ int_of_text other = Ok z ->
  Priority_lt int_of_text p other = Priority_lt int_of_text p (PyInt z)
  /\ Priority_eq int_of_text p other = Priority_eq int_of_text p (PyInt z)
  /\ Priority_ne int_of_text p other = Priority_ne int_of_text p (PyInt z)
  /\ Priority_le int_of_text p other = Priority_le int_of_text p (PyInt z)
  /\ Priority_gt int_of_text p other = Priority_gt int_of_text p (PyInt z)
  /\ Priority_ge int_of_text p other = Priority_ge int_of_text p (PyInt z).
Proof.
  intros Hint.
  unfold Priority_le, Priority_gt, Priority_ge, Priority_ne, Priority_lt,
    Priority_eq.
  rewrite Hint. repeat split.
Qed.

(** X5: The six comparison operators of a [Priority] against any operand
    that [int] converts answer as the integers do: the operators that
    [total_ordering] derives agree with [<=], [>], [>=] on the
    integers, and [!=] is the negation of [==].  Against an operand
    that [int] rejects, the four derived operators raise the error of
    [int] as well. *)
Theorem Priority_operators_integer_order (p : Priority) (other : pyobj) :
  (forall z : Z,
      int_ int_of_text other = Ok z ->
      Priority_lt int_of_text p other = Ok (_priority p <? z)%Z
      /\ Priority_eq int_of_text p other = Ok (_priority p =? z)%Z
      /\ Priority_ne int_of_text p other = Ok (negb (_priority p =? z)%Z)
      /\ Priority_le int_of_text p other = Ok (_priority p <=? z)%Z
      /\ Priority_gt int_of_text p other = Ok (z <? _priority p)%Z
      /\ Priority_ge int_of_text p other = Ok (z <=? _priority p)%Z)
  /\ (forall e : exn,
      int_ int_of_text other = Raise e ->
      Priority_ne int_of_text p other = Raise e
      /\ Priority_le int_of_text p other = Raise e
      /\ Priority_gt int_of_text p other = Raise e
      /\ Priority_ge int_of_text p other = Raise e).
Proof.
  split.
  - intros z Hint.
    destruct (Priority_ops_int p other Hint) as (-> & -> & -> & -> & -> & ->).
    rewrite Priority_le_int, Priority_gt_int, Priority_ge_int.
    repeat split.
  - intros e Hint.
    unfold Priority_le, Priority_gt, Priority_ge, Priority_ne, Priority_lt,
      Priority_eq.
    rewrite Hint. repeat split.
Qed.

(** X6: [PriorityField.unbox] gives the integer a value stands for: it
    answers [z] exactly for the values that [Priority(z)] compares
    equal to, a [Priority] is unwrapped, and a value [int] rejects
    makes it fail with the error of [int]. *)
Theorem PriorityField_unbox_eq (val : pyobj) :
  (forall z : Z,
      PriorityField_unbox int_of_text val = Ok z
      <-> Priority_eq int_of_text (mkPriority z) val = Ok true)
  /\ (forall p : Priority,
      PriorityField_unbox int_of_text (PyPriority p) = Ok (_priority p))
  /\ (forall e : exn,
      PriorityField_unbox int_of_text val = Raise e
      <-> Priority_eq int_of_text (mkPriority 0) val = Raise e).
Proof.
  unfold PriorityField_unbox, Priority_eq.
  split; [|split].
  - intros z. destruct (int_ int_of_text val) as [o|e]; simpl.
    + split.
      * intros [= ->]. f_equal. apply Z.eqb_refl.
      * intros [= Heq]. apply Z.eqb_eq in Heq. now subst.
    + split; discriminate.
  - reflexivity.
  - intros e. destruct (int_ int_of_text val) as [o|e']; simpl.
    + split; discriminate.
    + split; intros [= ->]; reflexivity.
Qed.

End PriorityMore.

Lemma to_int_not_nil (z : Z) :
  Z.to_int z <> Decimal.Pos Decimal.Nil /\ Z.to_int z <> Decimal.Neg Decimal.Nil.
Proof.
  destruct z as [|p|p]; simpl; split; try discriminate.
  - intros [= Hp]. now apply (DecimalPos.Unsigned.to_uint_nonnil p).
  - intros [= Hp]. now apply (DecimalPos.Unsigned.to_uint_nonnil p).
Qed.

(** The decimal text of an integer tells the integer. *)
Lemma format_d_inj (a b : Z) : format_d a = format_d b -> a = b.
Proof.
  unfold format_d. intros Heq.
  destruct (to_int_not_nil a) as [Ha1 Ha2].
  destruct (to_int_not_nil b) as [Hb1 Hb2].
  pose proof (DecimalString.NilZero.isi (Z.to_int a) Ha1 Ha2) as Hpa.
  pose proof (DecimalString.NilZero.isi (Z.to_int b) Hb1 Hb2) as Hpb.
  rewrite Heq, Hpb in Hpa. injection Hpa as Hab.
  symmetry. now apply DecimalZ.to_int_inj.
Qed.

(** X7: [repr] tells priorities apart: two priorities with the same
    [repr] are the same priority. *)
Theorem Priority_repr_inj (p q : Priority) :
  Priority_repr p = Priority_repr q -> p = q.
Proof.
  unfold Priority_repr. intros Heq.
  injection Heq as Heq. apply append_inv_tail in Heq.
  apply Priority_ext. now apply format_d_inj.
Qed.

Lemma Priority_operators_integer_order_witness :
  Priority_ge sample_int_of_text (mkPriority 3) (PyPriority (mkPriority 2))
  = Ok true.
Proof.
  destruct (Priority_operators_integer_order sample_int_of_text (mkPriority 3)
              (PyPriority (mkPriority 2))) as [Hok _].
  destruct (Hok 2%Z eq_refl) as (_ & _ & _ & _ & _ & Hge). exact Hge.
Defined.

Lemma PriorityField_unbox_eq_witness :
  PriorityField_unbox sample_int_of_text (PyInt 7) = Ok 7%Z.
Proof.
  destruct (PriorityField_unbox_eq sample_int_of_text (PyInt 7)) as [Hiff _].
  apply Hiff. reflexivity.
Defined.

Lemma Priority_repr_inj_witness : mkPriority 3 = mkPriority (1 + 2).
Proof.
  apply Priority_repr_inj. reflexivity.
Defined.

(** ** LinkTypeField, once more *)

Lemma lower_ascii_idem (c : ascii) : lower_ascii (lower_ascii c) = lower_ascii c.
Proof.
  destruct c as [[] [] [] [] [] [] [] []]; reflexivity.
Qed.

Lemma lower_ascii_keeps (c : ascii) :
  Ascii.eqb c "-" || Ascii.eqb c "_" = false ->
  Ascii.eqb (lower_ascii c) "-" || Ascii.eqb (lower_ascii c) "_" = false.
Proof.
  destruct c as [[] [] [] [] [] [] [] []]; intros Hc; try reflexivity;
    discriminate Hc.
Qed.

Lemma link_text_idem (s : string) :
  link_text_ascii (link_text_ascii s) = link_text_ascii s.
Proof.
  induction s as [|c s IH]; [reflexivity|].
  rewrite link_text_cons.
  destruct (Ascii.eqb c "-" || Ascii.eqb c "_") eqn:Hc; [assumption|].
  rewrite link_text_cons, (lower_ascii_keeps c Hc), lower_ascii_idem, IH.
  reflexivity.
Qed.

Lemma link_text_plain (s : string) :
  char_in "-" (link_text_ascii s) = false
  /\ char_in "_" (link_text_ascii s) = false.
Proof.
  induction s as [|c s [IH1 IH2]]; [split; reflexivity|].
  rewrite link_text_cons.
  destruct (Ascii.eqb c "-" || Ascii.eqb c "_") eqn:Hc; [now split|].
  apply lower_ascii_keeps in Hc. apply orb_false_iff in Hc as [Hh Hu].
  simpl. now rewrite Hh, Hu, IH1, IH2.
Qed.

Lemma lower_idem (s : string) : lower (lower s) = lower s.
Proof.
  induction s as [|c s IH]; simpl; [reflexivity|].
  now rewrite lower_ascii_idem, IH.
Qed.

Section LinkTypeMore.

Variable LinkType : Type.
Variables hardlink softlink : LinkType.
Variable LinkType_members : list (string * LinkType).
Variable str_lower : string -> string.

(** X8: On ASCII text, with [s.lower()] lowering the ASCII letters and
    keeping the other characters: the text [LinkTypeField.box] hands to
    the enum matching is a fixed point of the normalization: it holds
    no hyphen and no underscore, lowercasing leaves it alone, and
    boxing it gives what boxing the original text gives.  Two texts
    with the same normalized text box alike. *)
Theorem LinkTypeField_box_normal_form (s : string) :
  (forall t, is_ascii t = true -> str_lower t = lower t) ->
  is_ascii s = true ->
  LinkTypeField_box hardlink softlink LinkType_members str_lower
    (LText (link_text str_lower s))
  = LinkTypeField_box hardlink softlink LinkType_members str_lower (LText s)
  /\ char_in "-" (link_text str_lower s) = false
  /\ char_in "_" (link_text str_lower s) = false
  /\ str_lower (link_text str_lower s) = link_text str_lower s
  /\ (forall t : string,
      link_text str_lower t = link_text str_lower s ->
      LinkTypeField_box hardlink softlink LinkType_members str_lower (LText t)
      = LinkTypeField_box hardlink softlink LinkType_members str_lower
          (LText s)).
Proof.
  intros Hlower Hs.
  assert (Hn : link_text str_lower s = link_text_ascii s)
    by (now apply link_text_on_ascii).
  assert (Hna : is_ascii (link_text_ascii s) = true)
    by (now apply is_ascii_link_text_ascii).
  assert (Hidem : link_text str_lower (link_text_ascii s) = link_text_ascii s).
  { rewrite (link_text_on_ascii str_lower (link_text_ascii s) Hlower Hna).
    apply link_text_idem. }
  split; [|split; [|split; [|split]]].
  - unfold LinkTypeField_box. now rewrite Hn, Hidem.
  - rewrite Hn. apply link_text_plain.
  - rewrite Hn. apply link_text_plain.
  - rewrite Hn, (Hlower _ Hna). unfold link_text_ascii. apply lower_idem.
  - intros t Ht. unfold LinkTypeField_box. now rewrite Ht.
Qed.

End LinkTypeMore.

Lemma LinkTypeField_box_normal_form_witness :
  LinkTypeField_box 1%Z 2%Z sample_LinkType_members lower (LText "Soft-Link")
  = LinkTypeField_box 1%Z 2%Z sample_LinkType_members lower (LText "soft_link").
Proof.
  destruct (LinkTypeField_box_normal_form 1%Z 2%Z sample_LinkType_members lower
              "soft_link" (fun t _ => eq_refl) eq_refl)
    as (_ & _ & _ & _ & Hsame).
  apply Hsame. reflexivity.
Defined.

(** ** Derived fields, once more *)

Lemma arch_token_no_x86 (arch : string) :
  contains "x86" (arch_token arch) = false.
Proof.
  unfold arch_token. destruct (contains "x86" arch) eqn:Hx; [|assumption].
  destruct (contains "64" arch); reflexivity.
Qed.

(** X9: The architecture token never holds "x86", so taking the token of a
    token changes nothing; and an architecture with "x86" gives one of
    the two tokens "64" and "32" whatever else it holds. *)
Theorem arch_token_normal_form (arch : string) :
  contains "x86" (arch_token arch) = false
  /\ arch_token (arch_token arch) = arch_token arch
  /\ (contains "x86" arch = true ->
      arch_token arch = "64" \/ arch_token arch = "32").
Proof.
  split; [apply arch_token_no_x86|]. split.
  - unfold arch_token at 1. now rewrite arch_token_no_x86.
  - intros Hx. unfold arch_token. rewrite Hx.
    destruct (contains "64" arch); [now left | now right].
Qed.

Section RecordsMore.

Variable Channel_of : option string -> Channel.t.
Variable context_subdir : string.
Variable hash : pkey -> Z.

(** What [ChannelField.__get__] returns. *)
Lemma ChannelField_get_value {T : Type} `{Instance T} (instance : T) :
  ChannelField_get Channel_of instance =
  Ok match stored_channel instance with
     | Some c => c
     | None => Channel_of (url_value (stored_url instance))
     end.
Proof.
  unfold ChannelField_get, attr_url, unbox.
  destruct (stored_channel instance); simpl; [reflexivity|].
  destruct (stored_url instance); reflexivity.
Qed.

(** X10: [ChannelField.__get__] never fails: it returns the stored channel,
    else the channel parsed from the URL, where a URL that was never
    assigned and a URL stored as [None] both give [Channel(None)]; a
    URL stored as the empty text is still handed to the parser. *)
Theorem ChannelField_get_fallback {T : Type} `{Instance T} (instance : T) :
  (forall c, stored_channel instance = Some c ->
             ChannelField_get Channel_of instance = Ok c)
  /\ (stored_channel instance = None ->
      stored_url instance = Unset \/ stored_url instance = Null ->
      ChannelField_get Channel_of instance = Ok (Channel_of None))
  /\ (forall u, stored_channel instance = None ->
                stored_url instance = Val u ->
                ChannelField_get Channel_of instance = Ok (Channel_of (Some u))).
Proof.
  rewrite ChannelField_get_value. split; [|split].
  - now intros c ->.
  - intros -> [-> | ->]; reflexivity.
  - now intros u -> ->.
Qed.

Lemma PackageRef_subdir_value (r : PackageRef) :
  SubdirField_get Channel_of context_subdir r =
  Ok match pref_subdir r with
     | Some s => Some s
     | None =>
         match url_present r with
         | Some u => Channel.subdir (Channel_of (Some u))
         | None => Some context_subdir
         end
     end.
Proof.
  rewrite SubdirField_get_stored_arch. unfold subdir_chain_stored_arch. simpl.
  destruct (pref_subdir r); [reflexivity|].
  destruct (url_present r); reflexivity.
Qed.

(** X11: A [PackageRef] has no platform and no architecture: its subdir is
    the stored value, else the subdir of the channel of a present URL,
    else the default subdirectory. *)
Theorem PackageRef_subdir (r : PackageRef) :
  SubdirField_get Channel_of context_subdir r =
  Ok match pref_subdir r with
     | Some s => Some s
     | None =>
         match url_present r with
         | Some u => Channel.subdir (Channel_of (Some u))
         | None => Some context_subdir
         end
     end.
Proof. apply PackageRef_subdir_value. Qed.

(** X12: An [IndexJsonRecord] has no URL: its subdir never depends on the
    channel parser, and it is never [None]. *)
Theorem IndexJsonRecord_subdir (r : IndexJsonRecord)
    (Channel_of' : option string -> Channel.t) :
  SubdirField_get Channel_of context_subdir r
  = SubdirField_get Channel_of' context_subdir r
  /\ exists s, SubdirField_get Channel_of context_subdir r = Ok (Some s).
Proof.
  rewrite !SubdirField_get_stored_arch.
  unfold subdir_chain_stored_arch, url_present, platform_set, arch_set. simpl.
  split; [reflexivity|].
  destruct (ijr_subdir r); [eauto|].
  destruct (ijr_platform r) as [| |m]; [eauto..|].
  destruct (truthy (Enum.name m)); [|eauto].
  destruct (ijr_arch r) as [| |a]; [eauto..|].
  destruct (truthy a); eauto.
Qed.

(** X13: In a [PackageRecord] the stored subdir and the URL come before the
    platform and the architecture: with either of the two present,
    assigning platform and architecture does not change the subdir. *)
Theorem PackageRecord_subdir_url_first (r : PackageRecord)
    (platform : slot Enum.t) (arch : slot string) :
  prec_subdir r <> None \/ url_present r <> None ->
  SubdirField_get Channel_of context_subdir (set_platform_arch r platform arch)
  = SubdirField_get Channel_of context_subdir r.
Proof.
  intros Hfirst. rewrite !SubdirField_get_stored_arch.
  unfold subdir_chain_stored_arch, url_present in *. simpl in *.
  destruct (prec_subdir r); [reflexivity|].
  destruct (prec_url r) as [| |u]; try (destruct Hfirst; congruence).
  destruct (truthy u); [reflexivity | destruct Hfirst; congruence].
Qed.

(** X14: Filename and channel agree: with no filename and no channel
    stored, and a URL that can be read, the filename is the package
    filename of the very channel the channel accessor returns, unless
    that is nothing: then, and when the URL was never assigned, it is
    "name-version-build". *)
Theorem FilenameField_get_of_channel {T : Type} `{Instance T} (instance : T) :
  stored_fn instance = None -> stored_channel instance = None ->
  exists c,
    ChannelField_get Channel_of instance = Ok c
    /\ FilenameField_get Channel_of instance =
       Ok match stored_url instance with
          | Unset => synthesized_fn instance
          | _ =>
              match Channel.package_filename c with
              | Some f => if truthy f then f else synthesized_fn instance
              | None => synthesized_fn instance
              end
          end.
Proof.
  intros Hfn Hch. rewrite ChannelField_get_value, Hch.
  eexists; split; [reflexivity|].
  unfold FilenameField_get, attr_url, unbox. rewrite Hfn.
  pose proof (synthesized_fn_truthy instance) as Hsyn.
  unfold synthesized_fn in *.
  destruct (stored_url instance) as [| |u]; cbn -[truthy append].
  - now rewrite Hsyn.
  - destruct (Channel.package_filename (Channel_of None)) as [f|];
      cbn -[truthy append]; [|now rewrite Hsyn].
    destruct (truthy f) eqn:Hf; cbn -[truthy append];
      [now rewrite Hf | now rewrite Hsyn].
  - destruct (Channel.package_filename (Channel_of (Some u))) as [f|];
      cbn -[truthy append]; [|now rewrite Hsyn].
    destruct (truthy f) eqn:Hf; cbn -[truthy append];
      [now rewrite Hf | now rewrite Hsyn].
Qed.

(** ** Identity, once more *)

Lemma pkey_eqb_sym (a b : pkey) : pkey_eqb a b = pkey_eqb b a.
Proof.
  destruct (pkey_eqb a b) eqn:Hab; destruct (pkey_eqb b a) eqn:Hba;
    try reflexivity.
  - apply pkey_eqb_eq in Hab. subst. now rewrite pkey_eqb_refl in Hba.
  - apply pkey_eqb_eq in Hba. subst. now rewrite pkey_eqb_refl in Hab.
Qed.

(** [schannel] and [dist_str] read off the identity key. *)
Lemma dist_str_of_pkey {T : Type} `{Instance T} (self : T)
    (cn : string) (sd : option string) (n v b : string) :
  _pkey Channel_of context_subdir self = Ok (cn, sd, n, v, b) ->
  PackageRef_schannel Channel_of self = Ok cn
  /\ PackageRef_dist_str Channel_of self
     = Ok (cn ++ "::" ++ n ++ "-" ++ v ++ "-" ++ b).
Proof.
  unfold _pkey, PackageRef_schannel, PackageRef_dist_str.
  destruct (ChannelField_get_total Channel_of self) as [c ->].
  rewrite SubdirField_get_stored_arch. simpl.
  intros [= <- _ <- <- <-]. split; reflexivity.
Qed.

(** X15: [__eq__] is an equivalence on the values that have the identity
    key: a record equals itself, the answer does not depend on which
    of two values is asked, also between a [PackageRef] and a
    [PackageRecord], and equality carries over a middle value. *)
Theorem PackageRef_eq_equivalence (a b c : PackageRecord) (r : PackageRef) :
  PackageRef_eq Channel_of context_subdir a (PyPackageRecord a) = Ok true
  /\ PackageRef_eq Channel_of context_subdir a (PyPackageRecord b)
     = PackageRef_eq Channel_of context_subdir b (PyPackageRecord a)
  /\ PackageRef_eq Channel_of context_subdir r (PyPackageRecord a)
     = PackageRef_eq Channel_of context_subdir a (PyPackageRef r)
  /\ (PackageRef_eq Channel_of context_subdir a (PyPackageRecord b) = Ok true ->
      PackageRef_eq Channel_of context_subdir b (PyPackageRecord c) = Ok true ->
      PackageRef_eq Channel_of context_subdir a (PyPackageRecord c) = Ok true)
  /\ (PackageRef_eq Channel_of context_subdir r (PyPackageRecord a) = Ok true ->
      PackageRef_eq Channel_of context_subdir a (PyPackageRecord b) = Ok true ->
      PackageRef_eq Channel_of context_subdir r (PyPackageRecord b) = Ok true).
Proof.
  destruct (_pkey_total Channel_of context_subdir a) as [ka Ha].
  destruct (_pkey_total Channel_of context_subdir b) as [kb Hb].
  destruct (_pkey_total Channel_of context_subdir c) as [kc Hc].
  destruct (_pkey_total Channel_of context_subdir r) as [kr Hr].
  rewrite (PackageRef_eq_keys Channel_of context_subdir a (PyPackageRecord a) Ha Ha).
  rewrite (PackageRef_eq_keys Channel_of context_subdir a (PyPackageRecord b) Ha Hb).
  rewrite (PackageRef_eq_keys Channel_of context_subdir b (PyPackageRecord a) Hb Ha).
  rewrite (PackageRef_eq_keys Channel_of context_subdir r (PyPackageRecord a) Hr Ha).
  rewrite (PackageRef_eq_keys Channel_of context_subdir a (PyPackageRef r) Ha Hr).
  rewrite (PackageRef_eq_keys Channel_of context_subdir b (PyPackageRecord c) Hb Hc).
  rewrite (PackageRef_eq_keys Channel_of context_subdir a (PyPackageRecord c) Ha Hc).
  rewrite (PackageRef_eq_keys Channel_of context_subdir r (PyPackageRecord b) Hr Hb).
  split; [now rewrite pkey_eqb_refl|].
  split; [now rewrite pkey_eqb_sym|].
  split; [now rewrite pkey_eqb_sym|].
  split.
  - intros [= Hab] [= Hbc]. apply pkey_eqb_eq in Hab, Hbc. subst.
    now rewrite pkey_eqb_refl.
  - intros [= Hra] [= Hab]. apply pkey_eqb_eq in Hra, Hab. subst.
    now rewrite pkey_eqb_refl.
Qed.

(** X16: Two values that compare equal have the same [schannel] and the
    same [dist_str]. *)
Theorem PackageRef_eq_dist_str {T : Type} `{Instance T} (self : T)
    (other : PackageRecord) :
  PackageRef_eq Channel_of context_subdir self (PyPackageRecord other)
  = Ok true ->
  PackageRef_schannel Channel_of self = PackageRef_schannel Channel_of other
  /\ PackageRef_dist_str Channel_of self = PackageRef_dist_str Channel_of other.
Proof.
  destruct (_pkey_total Channel_of context_subdir self) as [ks Hs].
  destruct (_pkey_total Channel_of context_subdir other) as [ko Ho].
  rewrite (PackageRef_eq_keys Channel_of context_subdir self
             (PyPackageRecord other) Hs Ho).
  intros [= Hk]. apply pkey_eqb_eq in Hk. subst ko.
  destruct ks as [[[[cn sd] n] v] b].
  destruct (dist_str_of_pkey self Hs) as [-> ->].
  destruct (dist_str_of_pkey other Ho) as [-> ->].
  split; reflexivity.
Qed.

(** X17: [dist_str] leaves the subdir out: the same record stored under two
    different subdirs has one [dist_str] and yet does not compare
    equal. *)
Theorem PackageRef_dist_str_ignores_subdir (r : PackageRecord) (s1 s2 : string) :
  s1 <> s2 ->
  PackageRef_dist_str Channel_of (set_channel_subdir r (prec_channel r) (Some s1))
  = PackageRef_dist_str Channel_of
      (set_channel_subdir r (prec_channel r) (Some s2))
  /\ PackageRef_eq Channel_of context_subdir
       (set_channel_subdir r (prec_channel r) (Some s1))
       (PyPackageRecord (set_channel_subdir r (prec_channel r) (Some s2)))
     = Ok false.
Proof.
  intros Hne. split; [reflexivity|].
  unfold PackageRef_eq, getattr_pkey, _pkey.
  rewrite !ChannelField_get_value, !SubdirField_get_stored_arch. cbn -[pkey_eqb].
  f_equal. apply not_true_is_false. intros Hk.
  apply pkey_eqb_eq in Hk. congruence.
Qed.

(** X18: Identity follows the URL when no channel is stored: assigning a
    URL whose channel has another canonical name gives a record that
    no longer compares equal to the one before. *)
Theorem PackageRef_eq_url_changes_identity (r : PackageRecord)
    (url1 url2 : slot string) :
  prec_channel r = None ->
  Channel.canonical_name (Channel_of (url_value url1))
  <> Channel.canonical_name (Channel_of (url_value url2)) ->
  PackageRef_eq Channel_of context_subdir (set_url r url1)
    (PyPackageRecord (set_url r url2)) = Ok false.
Proof.
  intros Hch Hne.
  unfold PackageRef_eq, getattr_pkey, _pkey.
  rewrite !ChannelField_get_value, !SubdirField_get_stored_arch. cbn -[pkey_eqb].
  rewrite Hch. cbn -[pkey_eqb].
  f_equal. apply not_true_is_false. intros Hk.
  apply pkey_eqb_eq in Hk. congruence.
Qed.

(** X19: Two [PackageRef] values with no channel, no subdir and no URL
    stored compare equal exactly when name, version and build agree. *)
Theorem PackageRef_eq_bare (a b : PackageRef) :
  pref_channel a = None -> pref_channel b = None ->
  pref_subdir a = None -> pref_subdir b = None ->
  url_value (pref_url a) = None -> url_value (pref_url b) = None ->
  (PackageRef_eq Channel_of context_subdir a (PyPackageRef b) = Ok true
   <-> pref_name a = pref_name b /\ pref_version a = pref_version b
       /\ pref_build a = pref_build b)
  /\ (PackageRef_eq Channel_of context_subdir a (PyPackageRef b) = Ok false
      <-> ~ (pref_name a = pref_name b /\ pref_version a = pref_version b
             /\ pref_build a = pref_build b)).
Proof.
  intros Hca Hcb Hsa Hsb Hua Hub.
  unfold PackageRef_eq, getattr_pkey, _pkey.
  rewrite !ChannelField_get_value, !PackageRef_subdir_value. cbn -[pkey_eqb].
  unfold url_present. cbn -[pkey_eqb].
  rewrite Hca, Hcb, Hsa, Hsb, Hua, Hub.
  assert (Hna : match pref_url a with
                | Val u => if truthy u then Some u else None
                | _ => None
                end = None).
  { destruct (pref_url a); [reflexivity..|discriminate]. }
  assert (Hnb : match pref_url b with
                | Val u => if truthy u then Some u else None
                | _ => None
                end = None).
  { destruct (pref_url b); [reflexivity..|discriminate]. }
  rewrite Hna, Hnb. cbn -[pkey_eqb].
  match goal with |- context [pkey_eqb ?x ?y] =>
    destruct (pkey_eqb x y) eqn:Hk end.
  - apply pkey_eqb_eq in Hk. injection Hk as Hn Hv Hb.
    split; split.
    + intros _. now repeat split.
    + reflexivity.
    + discriminate.
    + intros Hneg. exfalso. apply Hneg. now repeat split.
  - assert (Hneg : ~ (pref_name a = pref_name b
                      /\ pref_version a = pref_version b
                      /\ pref_build a = pref_build b)).
    { intros (Hn & Hv & Hb). rewrite Hn, Hv, Hb, pkey_eqb_refl in Hk.
      discriminate. }
    split; split.
    + discriminate.
    + intros Hpos. now exfalso.
    + intros _. exact Hneg.
    + reflexivity.
Qed.

End RecordsMore.

(** ** combined_depends, once more *)

Section FirstSeen.

Local Open Scope list_scope.

Lemma In_first_seen (k : string) (names : list string) :
  In k (first_seen names) <-> In k names.
Proof.
  induction names as [|n names IH]; simpl; [tauto|].
  rewrite filter_In, IH, negb_true_iff, String.eqb_neq.
  destruct (string_dec n k) as [->|Hne]; [tauto|].
  split; [tauto|]. intros [Hk|Hk]; [tauto|]. right. split; congruence.
Qed.

(** A name seen again changes nothing; a new name goes last. *)
Lemma first_seen_snoc (names : list string) (k : string) :
  first_seen (names ++ [k]) =
  if in_dec string_dec k names then first_seen names
  else first_seen names ++ [k].
Proof.
  induction names as [|n names IH]; [reflexivity|].
  cbn [first_seen app]. rewrite IH.
  destruct (in_dec string_dec k names) as [Hin|Hnin];
    destruct (in_dec string_dec k (n :: names)) as [Hin'|Hnin'].
  - reflexivity.
  - exfalso. apply Hnin'. now right.
  - destruct Hin' as [->|Hin']; [|contradiction].
    rewrite filter_app. cbn [filter]. rewrite String.eqb_refl. cbn [negb].
    now rewrite app_nil_r.
  - rewrite filter_app. cbn [filter].
    assert (Hk : String.eqb k n = false).
    { apply String.eqb_neq. intros ->. apply Hnin'. now left. }
    rewrite Hk. reflexivity.
Qed.

Lemma first_seen_length (names : list string) :
  length (first_seen names) <= length names.
Proof.
  induction names as [|n names IH]; simpl; [lia|].
  pose proof (filter_length_le (fun m => negb (String.eqb m n))
                (first_seen names)). lia.
Qed.

Lemma find_app {A : Type} (f : A -> bool) (l1 l2 : list A) :
  find f (l1 ++ l2) =
  match find f l1 with
  | Some x => Some x
  | None => find f l2
  end.
Proof.
  induction l1 as [|x l1 IH]; simpl; [reflexivity|].
  destruct (f x); [reflexivity | assumption].
Qed.

End FirstSeen.

Section CombinedDependsMore.

Variable MatchSpec_t : Type.
Variable MatchSpec : string -> bool -> MatchSpec_t.
Variable MatchSpec_name : MatchSpec_t -> string.

Local Open Scope list_scope.

(** The dictionary [combined_depends] ends with, as one run of
    assignments over all entries. *)
Lemma combined_depends_entries (depends constrains : list string) :
  combined_depends MatchSpec MatchSpec_name depends constrains =
  map snd (fold_left (by_name MatchSpec_name)
             (parsed_entries MatchSpec depends constrains) []).
Proof.
  rewrite combined_depends_fold. unfold parsed_entries.
  now rewrite fold_left_app.
Qed.

Lemma in_setitem (d : dict MatchSpec_t) (k k' : string) (v v' : MatchSpec_t) :
  NoDup (map fst d) ->
  In (k', v') (setitem d k v) ->
  (k' = k /\ v' = v) \/ (k' <> k /\ In (k', v') d).
Proof.
  induction d as [|[k0 v0] d IH]; simpl; intros Hnd Hin.
  - destruct Hin as [[= <- <-]|[]]. now left.
  - inversion Hnd as [|? ? Hnotin Hnd']; subst.
    destruct (String.eqb_spec k0 k) as [->|Hne].
    + destruct Hin as [[= <- <-]|Hin]; [now left|].
      right. split; [|now right].
      intros ->. apply Hnotin. now apply (in_map fst) in Hin.
    + destruct Hin as [[= <- <-]|Hin].
      * right. split; [assumption | now left].
      * destruct (IH Hnd' Hin) as [Hl|[Hk Hr]]; [now left|].
        right. split; [assumption | now right].
Qed.

(** The keys of the dictionary: the names in first-seen order. *)
Lemma fold_by_name_keys (specs : list MatchSpec_t) :
  map fst (fold_left (by_name MatchSpec_name) specs [])
  = first_seen (map MatchSpec_name specs).
Proof.
  induction specs as [|ms specs IH] using rev_ind; [reflexivity|].
  rewrite fold_left_app, map_app. cbn [fold_left map].
  rewrite first_seen_snoc. unfold by_name at 1.
  destruct (in_dec string_dec (MatchSpec_name ms) (map MatchSpec_name specs))
    as [Hin|Hnin].
  - rewrite setitem_keys_in; [assumption|].
    rewrite IH. now apply In_first_seen.
  - assert (Hn : ~ In (MatchSpec_name ms)
                   (map fst (fold_left (by_name MatchSpec_name) specs []))).
    { now rewrite IH, In_first_seen. }
    rewrite (setitem_notin MatchSpec MatchSpec_name) by exact Hn.
    now rewrite map_app, IH.
Qed.

(** The value under a key: the last specifier of that name. *)
Lemma fold_by_name_values (specs : list MatchSpec_t) :
  forall (k : string) (v : MatchSpec_t),
    In (k, v) (fold_left (by_name MatchSpec_name) specs []) ->
    last_named MatchSpec_name k specs = Some v.
Proof.
  induction specs as [|ms specs IH] using rev_ind; intros k v Hin;
    [contradiction|].
  rewrite fold_left_app in Hin. simpl in Hin. unfold by_name at 1 in Hin.
  apply in_setitem in Hin;
    [|apply (fold_by_name_NoDup MatchSpec); constructor].
  unfold last_named. rewrite rev_app_distr. simpl.
  destruct Hin as [[-> ->]|[Hne Hin]].
  - now rewrite String.eqb_refl.
  - assert (Hk : String.eqb (MatchSpec_name ms) k = false)
      by (apply String.eqb_neq; congruence).
    rewrite Hk. now apply IH.
Qed.

Lemma combined_depends_last (depends constrains : list string)
    (ms : MatchSpec_t) :
  In ms (combined_depends MatchSpec MatchSpec_name depends constrains) ->
  last_named MatchSpec_name (MatchSpec_name ms)
    (parsed_entries MatchSpec depends constrains) = Some ms.
Proof.
  rewrite combined_depends_entries. intros Hin.
  apply in_map_iff in Hin as [[k v] [Hv Hin]]. simpl in Hv. subst v.
  assert (Hwk : well_keyed MatchSpec_name
                  (fold_left (by_name MatchSpec_name)
                     (parsed_entries MatchSpec depends constrains) [])).
  { apply fold_by_name_well_keyed. constructor. }
  unfold well_keyed in Hwk. rewrite Forall_forall in Hwk.
  pose proof (Hwk _ Hin) as Hk. simpl in Hk. subst k.
  now apply fold_by_name_values.
Qed.

Lemma combined_depends_names (depends constrains : list string) :
  map MatchSpec_name
    (combined_depends MatchSpec MatchSpec_name depends constrains)
  = first_seen
      (map MatchSpec_name (parsed_entries MatchSpec depends constrains)).
Proof.
  rewrite combined_depends_entries.
  rewrite well_keyed_names by (apply fold_by_name_well_keyed; constructor).
  apply fold_by_name_keys.
Qed.

(** X20: [combined_depends] in closed form: the names of all entries,
    depends before constrains, each once and in the order first seen;
    under each name the last entry of that name. *)
Theorem combined_depends_first_seen_last_wins (depends constrains : list string) :
  map MatchSpec_name
    (combined_depends MatchSpec MatchSpec_name depends constrains)
  = first_seen
      (map MatchSpec_name (parsed_entries MatchSpec depends constrains))
  /\ (forall ms : MatchSpec_t,
      In ms (combined_depends MatchSpec MatchSpec_name depends constrains) ->
      last_named MatchSpec_name (MatchSpec_name ms)
        (parsed_entries MatchSpec depends constrains) = Some ms).
Proof.
  split; [apply combined_depends_names|].
  intros ms. apply combined_depends_last.
Qed.

(** X21: A constrains entry takes the place of every depends entry of its
    name: a specifier of the result whose name some constrains entry
    has is an optional specifier parsed from constrains; any other
    specifier of the result is a required one parsed from depends. *)
Theorem combined_depends_constrains_win (depends constrains : list string)
    (ms : MatchSpec_t) :
  In ms (combined_depends MatchSpec MatchSpec_name depends constrains) ->
  ((exists c, In c constrains
              /\ MatchSpec_name (MatchSpec c true) = MatchSpec_name ms) ->
   exists c, In c constrains /\ ms = MatchSpec c true)
  /\ ((forall c, In c constrains ->
                 MatchSpec_name (MatchSpec c true) <> MatchSpec_name ms) ->
      exists d, In d depends /\ ms = MatchSpec d false).
Proof.
  intros Hin. apply combined_depends_last in Hin.
  unfold last_named, parsed_entries in Hin.
  rewrite rev_app_distr, find_app in Hin.
  split.
  - intros (c & Hc & Hname).
    destruct (find (fun ms0 => String.eqb (MatchSpec_name ms0) (MatchSpec_name ms))
                (rev (map (fun spec => MatchSpec spec true) constrains)))
      as [y|] eqn:Hfind.
    + injection Hin as ->. apply find_some in Hfind as [Hy _].
      apply in_rev, in_map_iff in Hy as (c' & <- & Hc'). now exists c'.
    + exfalso.
      assert (Hcin : In (MatchSpec c true)
                       (rev (map (fun spec => MatchSpec spec true) constrains))).
      { apply in_rev. rewrite rev_involutive. apply in_map_iff. now exists c. }
      pose proof (find_none _ _ Hfind _ Hcin) as Hno. simpl in Hno.
      apply String.eqb_neq in Hno. contradiction.
  - intros Hnone.
    destruct (find (fun ms0 => String.eqb (MatchSpec_name ms0) (MatchSpec_name ms))
                (rev (map (fun spec => MatchSpec spec true) constrains)))
      as [y|] eqn:Hfind.
    + exfalso. apply find_some in Hfind as [Hy Hname].
      apply in_rev, in_map_iff in Hy as (c' & <- & Hc').
      apply String.eqb_eq in Hname. now apply (Hnone c').
    + apply find_some in Hin as [Hy _].
      apply in_rev, in_map_iff in Hy as (d & <- & Hd). now exists d.
Qed.

(** X22: No name is lost and none is made up: the names of the result are
    the names of the entries; the result is never longer than depends
    and constrains together, and it is empty only when both are. *)
Theorem combined_depends_covers (depends constrains : list string) :
  (forall n : string,
      In n (map MatchSpec_name
              (combined_depends MatchSpec MatchSpec_name depends constrains))
      <-> In n (map MatchSpec_name
                  (parsed_entries MatchSpec depends constrains)))
  /\ length (combined_depends MatchSpec MatchSpec_name depends constrains)
     <= length depends + length constrains
  /\ (combined_depends MatchSpec MatchSpec_name depends constrains = []
      <-> depends = [] /\ constrains = []).
Proof.
  split; [|split].
  - intros n. rewrite combined_depends_names. apply In_first_seen.
  - rewrite <- (length_map MatchSpec_name), combined_depends_names.
    etransitivity; [apply first_seen_length|].
    unfold parsed_entries. rewrite !length_map, length_app, !length_map. lia.
  - split.
    + intros Hnil.
      assert (Hnames := combined_depends_names depends constrains).
      rewrite Hnil in Hnames. simpl in Hnames.
      unfold parsed_entries in Hnames.
      destruct depends as [|d ds]; [|discriminate Hnames].
      destruct constrains as [|c cs]; [now split | discriminate Hnames].
    + intros [-> ->]. reflexivity.
Qed.

Lemma fold_by_name_distinct (specs : list MatchSpec_t) :
  forall d : dict MatchSpec_t,
    NoDup (map fst d ++ map MatchSpec_name specs) ->
    fold_left (by_name MatchSpec_name) specs d
    = d ++ map (fun ms => (MatchSpec_name ms, ms)) specs.
Proof.
  induction specs as [|ms specs IH]; simpl; intros d Hnd.
  - now rewrite app_nil_r.
  - assert (Hn : ~ In (MatchSpec_name ms) (map fst d)).
    { apply NoDup_remove_2 in Hnd. intros Hin. apply Hnd.
      apply in_or_app. now left. }
    unfold by_name at 2.
    rewrite (setitem_notin MatchSpec MatchSpec_name) by exact Hn.
    rewrite IH; [now rewrite <- app_assoc|].
    rewrite map_app. simpl. now rewrite <- app_assoc.
Qed.

(** X23: With all names distinct nothing is replaced: the result is every
    depends entry as a required specifier, then every constrains entry
    as an optional one, in the order given. *)
Theorem combined_depends_distinct (depends constrains : list string) :
  NoDup (map MatchSpec_name (parsed_entries MatchSpec depends constrains)) ->
  combined_depends MatchSpec MatchSpec_name depends constrains
  = parsed_entries MatchSpec depends constrains.
Proof.
  intros Hnd. rewrite combined_depends_entries.
  rewrite fold_by_name_distinct by exact Hnd.
  simpl. rewrite map_map. simpl. apply map_id.
Qed.

End CombinedDependsMore.

(** ** The further properties at sample inputs *)

Lemma arch_token_normal_form_witness :
  arch_token "x86_64" = "64" \/ arch_token "x86_64" = "32".
Proof.
  apply (proj2 (proj2 (arch_token_normal_form "x86_64"))). reflexivity.
Defined.

Lemma ChannelField_get_fallback_witness :
  ChannelField_get sample_Channel_of sample_prec_null_url
  = Ok (sample_Channel_of None).
Proof.
  destruct (ChannelField_get_fallback sample_Channel_of sample_prec_null_url)
    as (_ & Hnone & _).
  apply Hnone; [reflexivity | right; reflexivity].
Defined.

Lemma PackageRecord_subdir_url_first_witness :
  SubdirField_get sample_Channel_of "osx-64"
    (set_platform_arch sample_prec_url (Val Platform_win) Null)
  = SubdirField_get sample_Channel_of "osx-64" sample_prec_url.
Proof.
  apply PackageRecord_subdir_url_first. right. discriminate.
Defined.

Lemma FilenameField_get_of_channel_witness :
  FilenameField_get sample_Channel_of sample_prec_url = Ok "foo-1.0-0.tar.bz2".
Proof.
  assert (Hfn0 : stored_fn sample_prec_url = None) by reflexivity.
  assert (Hch0 : stored_channel sample_prec_url = None) by reflexivity.
  destruct (FilenameField_get_of_channel sample_Channel_of sample_prec_url
              Hfn0 Hch0) as (c & Hc & Hfn).
  injection Hc as <-. exact Hfn.
Defined.

Lemma PackageRef_eq_equivalence_witness :
  PackageRef_eq sample_Channel_of "osx-64" sample_pref
    (PyPackageRecord sample_prec_null_url) = Ok true.
Proof.
  destruct (PackageRef_eq_equivalence sample_Channel_of "osx-64"
              sample_prec sample_prec_null_url sample_prec sample_pref)
    as (_ & _ & _ & _ & Htrans).
  apply Htrans; reflexivity.
Defined.

Lemma PackageRef_eq_dist_str_witness :
  PackageRef_dist_str sample_Channel_of sample_pref
  = PackageRef_dist_str sample_Channel_of sample_prec.
Proof.
  apply (PackageRef_eq_dist_str sample_Channel_of "osx-64" sample_pref
           sample_prec).
  reflexivity.
Defined.

Lemma PackageRef_dist_str_ignores_subdir_witness :
  PackageRef_eq sample_Channel_of "osx-64"
    (set_channel_subdir sample_prec (prec_channel sample_prec) (Some "linux-64"))
    (PyPackageRecord
       (set_channel_subdir sample_prec (prec_channel sample_prec) (Some "noarch")))
  = Ok false.
Proof.
  apply (PackageRef_dist_str_ignores_subdir sample_Channel_of "osx-64"
           sample_prec (s1 := "linux-64") (s2 := "noarch")).
  discriminate.
Defined.

Lemma PackageRef_eq_url_changes_identity_witness :
  PackageRef_eq sample_Channel_of "osx-64"
    (set_url sample_prec (Val "https://a/noarch/foo-1.0-0.tar.bz2"))
    (PyPackageRecord (set_url sample_prec (Val "https://b/noarch/foo-1.0-0.tar.bz2")))
  = Ok false.
Proof.
  apply PackageRef_eq_url_changes_identity; [reflexivity | discriminate].
Defined.

Lemma PackageRef_eq_bare_witness :
  PackageRef_eq sample_Channel_of "osx-64" sample_pref (PyPackageRef sample_pref)
  = Ok true.
Proof.
  assert (Hc : pref_channel sample_pref = None) by reflexivity.
  assert (Hs : pref_subdir sample_pref = None) by reflexivity.
  assert (Hu : url_value (pref_url sample_pref) = None) by reflexivity.
  apply (proj1 (PackageRef_eq_bare sample_Channel_of "osx-64" sample_pref
                  sample_pref Hc Hc Hs Hs Hu Hu)).
  repeat split.
Defined.

Lemma combined_depends_first_seen_last_wins_witness :
  last_named sample_MatchSpec_name "foo"
    (parsed_entries sample_MatchSpec ["foo >=1"; "bar"] ["foo <2"])
  = Some ("foo <2", true).
Proof.
  apply (proj2 (combined_depends_first_seen_last_wins sample_MatchSpec
                  sample_MatchSpec_name ["foo >=1"; "bar"] ["foo <2"])
           ("foo <2", true)).
  left. reflexivity.
Defined.

Lemma combined_depends_constrains_win_witness :
  exists c, In c ["foo <2"] /\ ("foo <2", true) = sample_MatchSpec c true.
Proof.
  assert (Hin : In ("foo <2", true)
                  (combined_depends sample_MatchSpec sample_MatchSpec_name
                     ["foo >=1"; "bar"] ["foo <2"])) by (left; reflexivity).
  apply (proj1 (combined_depends_constrains_win sample_MatchSpec
                  sample_MatchSpec_name ["foo >=1"; "bar"] ["foo <2"]
                  ("foo <2", true) Hin)).
  exists "foo <2". split; [now left | reflexivity].
Defined.

Lemma combined_depends_covers_witness :
  In "bar"
    (map sample_MatchSpec_name
       (combined_depends sample_MatchSpec sample_MatchSpec_name
          ["foo >=1"; "bar"] ["foo <2"])).
Proof.
  apply (proj1 (combined_depends_covers sample_MatchSpec sample_MatchSpec_name
                  ["foo >=1"; "bar"] ["foo <2"])).
  right. left. reflexivity.
Defined.

Lemma combined_depends_distinct_witness :
  combined_depends sample_MatchSpec sample_MatchSpec_name
    ["foo >=1"; "bar"] ["baz <2"]
  = [("foo >=1", false); ("bar", false); ("baz <2", true)].
Proof.
  apply (combined_depends_distinct sample_MatchSpec sample_MatchSpec_name
           ["foo >=1"; "bar"] ["baz <2"]).
  repeat constructor; simpl; intuition discriminate.
Defined.
